(** * ChainWatch detection and risk-scoring engine

    A shallow embedding of the analytical services of the backend
    ([services/flash_loan.py], [services/graph_analysis.py],
    [services/ml_engine.py], [services/risk_engine.py]) together with the
    part of [database.py] and [config.py] they read and write.

    Numbers.  Python's [float] values are modelled by exact rationals [Q];
    [round(x, n)] is rounding of the exact value to [n] decimals with ties to
    even, which is what the built-in computes on the exact value of its
    argument.  Overflow and representation error of binary floating point are
    outside the model.

    Containers.  A [dict] is an association list in insertion order (the
    iteration order of a Python dictionary); a [set] whose only uses are
    membership tests and [len] is a duplicate-free list. *)

From Stdlib Require Import ZArith QArith Qround Qminmax Qabs.
From Stdlib Require Import List String Ascii Bool Lia Lqa.
From Stdlib Require Import Permutation Sorting.Sorted SetoidList.
Import ListNotations.

Open Scope Q_scope.

(** ** Rounding *)

Module PyNum.

(** [round_half_even x]: the integer nearest to [x], ties to the even one. *)
Definition round_half_even (x : Q) : Z :=
  let f := Qfloor x in
  match Qcompare (x - inject_Z f) (1 # 2) with
  | Lt => f
  | Gt => (f + 1)%Z
  | Eq => if Z.even f then f else (f + 1)%Z
  end.

(** [10 ^ n] as a rational. *)
Definition pow10 (n : nat) : Q := inject_Z (10 ^ Z.of_nat n).

(** Python's [round(x, n)] for a non-negative number of digits. *)
Definition round (x : Q) (n : nat) : Q :=
  inject_Z (round_half_even (x * pow10 n)) / pow10 n.

(** Python's two-argument [max] and [min] on numbers: [max(a, b)] is [b]
    when [b > a] and [a] otherwise; [min(a, b)] is [b] when [b < a]. *)
Definition max (a b : Q) : Q := if Qlt_le_dec a b then b else a.
Definition min (a b : Q) : Q := if Qlt_le_dec b a then b else a.

(** Comparison operators as booleans. *)
Definition gtb (a b : Q) : bool := if Qlt_le_dec b a then true else false.
Definition geb (a b : Q) : bool := Qle_bool b a.
Definition ltb (a b : Q) : bool := if Qlt_le_dec a b then true else false.
Definition leb (a b : Q) : bool := Qle_bool a b.
Definition eqb (a b : Q) : bool := Qeq_bool a b.

(** A number with at most [n] decimals. *)
Definition decimals (n : nat) (x : Q) : Prop :=
  exists z : Z, x == inject_Z z / pow10 n.

End PyNum.

Import PyNum.

(** ** Dictionaries in insertion order *)

Module Dict.

Section Defs.
Context {K V : Type}.
Variable eqb : K -> K -> bool.

(** [d.get(k)] *)
Fixpoint get (d : list (K * V)) (k : K) : option V :=
  match d with
  | [] => None
  | (k', v) :: d' => if eqb k k' then Some v else get d' k
  end.

(** [k in d] *)
Definition mem (d : list (K * V)) (k : K) : bool :=
  match get d k with Some _ => true | None => false end.

(** [d[k] = f(d[k])] on a [defaultdict] whose factory returns [dflt]:
    an existing entry is changed in place, a missing one is appended. *)
Fixpoint update (d : list (K * V)) (k : K) (dflt : V) (f : V -> V)
  : list (K * V) :=
  match d with
  | [] => [(k, f dflt)]
  | (k', v) :: d' =>
      if eqb k k' then (k', f v) :: d' else (k', v) :: update d' k dflt f
  end.

Definition keys (d : list (K * V)) : list K := map fst d.
Definition values (d : list (K * V)) : list V := map snd d.

(** The value a [defaultdict] yields at [k]. *)
Definition get_default (d : list (K * V)) (k : K) (dflt : V) : V :=
  match get d k with Some v => v | None => dflt end.
End Defs.

End Dict.

(** ** Stable sorting, as [list.sort(key=..., reverse=True)] and SQL
    [ORDER BY] *)

Module PySort.

Section Defs.
Context {A : Type}.
(** [before x y]: [x] has to come strictly before [y]. *)
Variable before : A -> A -> bool.

Fixpoint insert (x : A) (l : list A) : list A :=
  match l with
  | [] => [x]
  | y :: l' => if before y x then y :: insert x l' else x :: l
  end.

Definition sort (l : list A) : list A := fold_right insert [] l.

End Defs.

End PySort.

(** ** Stored rows ([database.py])

    Only the columns the analytical services read or write are kept; the
    surrogate [id] and the [updated_at]/[created_at] clock values are left
    out.  An explanation is kept as the list of its sentences' causes, the
    rendering to text being formatting only. *)

Module Transaction.
Record t := mk {
  tx_hash : string;
  block_number : Z;
  from_address : string;
  to_address : option string;
  value_eth : Q;
  timestamp : Q  (* seconds *)
}.

(** [tx.to_address] when it is truthy: neither [None] nor empty. *)
Definition receiver (tx : t) : option string :=
  match to_address tx with
  | Some a => if String.eqb a EmptyString then None else Some a
  | None => None
  end.
End Transaction.

Module WalletProfile.
Record t := mk {
  address : string;
  tx_count : Z;
  total_value_sent : Q;
  total_value_received : Q;
  avg_value : Q;
  unique_counterparties : Z;
  inflow_outflow_ratio : Q;
  tx_frequency : Q;
  burst_score : Q;
  cluster_label : Z;
  risk_score : Q
}.
End WalletProfile.

(** One sentence of an explanation: the component that triggered it and the
    score it quotes. *)
Inductive Reason : Type :=
| MlAnomalyHigh (score : Q)
| GraphSuspicious (score : Q)
| FlashLoanLike (score : Q)
| WashTradingLike (score : Q).

Module Alert.
Record t := mk {
  wallet_address : string;
  alert_type : string;
  severity : string;
  risk_score : Q;
  explanation : list Reason
}.
End Alert.

Module RiskScore.
Record t := mk {
  wallet_address : string;
  composite_score : Q;
  ml_anomaly_score : Q;
  graph_score : Q;
  flash_loan_score : Q;
  wash_trade_score : Q;
  explanation : list Reason
}.
End RiskScore.

(** The session's view of the database. *)
Record Session := mkSession {
  transactions : list Transaction.t;
  wallet_profiles : list WalletProfile.t;
  risk_scores : list RiskScore.t;
  alerts : list Alert.t
}.

(** [db.query(Transaction).order_by(<integer column>).all()] *)
Definition order_by_Z (key : Transaction.t -> Z) (l : list Transaction.t)
  : list Transaction.t :=
  PySort.sort (fun y x => (key y <? key x)%Z) l.

(** [db.query(Transaction).order_by(Transaction.timestamp.asc()).all()] *)
Definition order_by_timestamp (l : list Transaction.t) : list Transaction.t :=
  PySort.sort (fun y x => ltb (Transaction.timestamp y) (Transaction.timestamp x)) l.

(** ** Flash-loan detection ([services/flash_loan.py]) *)

Module FlashLoan.

Record Flows := mkFlows {
  inflow : Q;
  outflow : Q;
  tx_hashes : list string
}.

(** The [defaultdict] factory [{"inflow": 0.0, "outflow": 0.0, "tx_hashes": []}]. *)
Definition new_flows : Flows := mkFlows 0 0 [].

Definition add_outflow (v : Q) (h : string) (f : Flows) : Flows :=
  mkFlows (inflow f) (outflow f + v) (tx_hashes f ++ [h]).

Definition add_inflow (v : Q) (h : string) (f : Flows) : Flows :=
  mkFlows (inflow f + v) (outflow f) (tx_hashes f ++ [h]).

Record FlashLoanDetector := mkDetector {
  value_tolerance : Q;
  min_value_eth : Q
}.

(** The singleton, built with the constructor's defaults. *)
Definition flash_loan_detector : FlashLoanDetector := mkDetector (5 # 100) 1.

(** One reported event.  The [tx_hashes] sample ([list(set(...))[:10]], whose
    order is the interpreter's) and the explanation text are left out. *)
Record Suspect := mkSuspect {
  wallet : string;
  block_number : Z;
  inflow_eth : Q;
  outflow_eth : Q;
  value_difference_pct : Q;
  flash_loan_score : Q
}.

Definition BlockWallet := list (Z * list (string * Flows)).

(** [block_wallet[block][w] = f(block_wallet[block][w])] *)
Definition touch (bw : BlockWallet) (block : Z) (w : string)
  (f : Flows -> Flows) : BlockWallet :=
  Dict.update Z.eqb bw block []
    (fun wallets => Dict.update String.eqb wallets w new_flows f).

(** The body of the grouping loop. *)
Definition group_step (bw : BlockWallet) (tx : Transaction.t) : BlockWallet :=
  let block := Transaction.block_number tx in
  let sender := Transaction.from_address tx in
  let bw1 := touch bw block sender
               (add_outflow (Transaction.value_eth tx) (Transaction.tx_hash tx)) in
  match Transaction.receiver tx with
  | Some receiver =>
      touch bw1 block receiver
        (add_inflow (Transaction.value_eth tx) (Transaction.tx_hash tx))
  | None => bw1
  end.

Definition group (txs : list Transaction.t) : BlockWallet :=
  fold_left group_step txs [].

Definition diff_ratio (inflow outflow : Q) : Q :=
  let max_val := max inflow outflow in
  let min_val := min inflow outflow in
  if gtb max_val 0 then (max_val - min_val) / max_val else 1.

(** The body of the inner scanning loop: the events one (block, wallet)
    entry appends to [suspects]. *)
Definition examine (self : FlashLoanDetector) (block_num : Z) (w : string)
  (flows : Flows) : list Suspect :=
  let inflow := inflow flows in
  let outflow := outflow flows in
  if ltb inflow (min_value_eth self) || ltb outflow (min_value_eth self)
  then []
  else
    let d := diff_ratio inflow outflow in
    if leb d (value_tolerance self) then
      let score := (1 - d) * 100 in
      [ mkSuspect w block_num (round inflow 6) (round outflow 6)
          (round (d * 100) 2) (round score 2) ]
    else [].

Definition scan (self : FlashLoanDetector) (bw : BlockWallet) : list Suspect :=
  flat_map (fun '(block_num, wallets) =>
              flat_map (fun '(w, flows) => examine self block_num w flows)
                wallets) bw.

Definition by_score_desc (l : list Suspect) : list Suspect :=
  PySort.sort (fun y x => gtb (flash_loan_score y) (flash_loan_score x)) l.

Definition detect (self : FlashLoanDetector) (db : Session) : list Suspect :=
  let transactions := order_by_Z Transaction.block_number (transactions db) in
  by_score_desc (scan self (group transactions)).

(** [max(d["flash_loan_score"] for d in ...)] over a non-empty list. *)
Definition max_of (first : Q) (rest : list Q) : Q := fold_left max rest first.

Definition get_wallet_flash_score (self : FlashLoanDetector) (db : Session)
  (address : string) : Q :=
  let detections := detect self db in
  let wallet_detections :=
    filter (fun d => String.eqb (wallet d) address) detections in
  match wallet_detections with
  | [] => 0
  | d :: ds => max_of (flash_loan_score d) (map flash_loan_score ds)
  end.

End FlashLoan.

(** ** Sets as duplicate-free lists *)

Module PySet.
Section Defs.
Context {A : Type}.
Variable eqb : A -> A -> bool.

Definition contains (s : list A) (x : A) : bool := existsb (eqb x) s.

(** [s.add(x)] *)
Definition add (s : list A) (x : A) : list A :=
  if contains s x then s else s ++ [x].

(** [set(l)] *)
Definition of_list (l : list A) : list A := fold_left add l [].

(** [s | t] *)
Definition union (s t : list A) : list A := fold_left add t s.
End Defs.
End PySet.

(** ** Interaction graph ([services/graph_analysis.py]) *)

Module GraphAnalysis.

(** The attributes [build_graph] puts on an edge. *)
Record EdgeData := mkEdge {
  weight : Q;
  count : Z;
  blocks : Z
}.

(** A [networkx.DiGraph]: the successor dictionary of every node, nodes and
    successors in insertion order.  Predecessors are read off it. *)
Definition DiGraph := list (string * list (string * EdgeData)).

Definition empty_graph : DiGraph := [].

Definition add_node (g : DiGraph) (n : string) : DiGraph :=
  Dict.update String.eqb g n [] (fun succ => succ).

(** [G.add_edge(u, v, weight=.., count=.., blocks=..)]: both end points
    become nodes ([u] first), the attributes of an existing edge are
    overwritten. *)
Definition add_edge (g : DiGraph) (u v : string) (d : EdgeData) : DiGraph :=
  let g1 := add_node (add_node g u) v in
  Dict.update String.eqb g1 u []
    (fun succ => Dict.update String.eqb succ v d (fun _ => d)).

(** [n in G] *)
Definition has_node (g : DiGraph) (n : string) : bool :=
  Dict.mem String.eqb g n.

Definition nodes (g : DiGraph) : list string := Dict.keys g.

(** [G[u]] *)
Definition adj (g : DiGraph) (u : string) : list (string * EdgeData) :=
  Dict.get_default String.eqb g u [].

(** [G[u][v]], guarded by [has_edge] in the callers. *)
Definition edge_data (g : DiGraph) (u v : string) : option EdgeData :=
  Dict.get String.eqb (adj g u) v.

Definition has_edge (g : DiGraph) (u v : string) : bool :=
  match edge_data g u v with Some _ => true | None => false end.

(** [G.edges(data=True)] *)
Definition edges (g : DiGraph) : list (string * string * EdgeData) :=
  flat_map (fun '(u, succ) => map (fun '(v, d) => (u, v, d)) succ) g.

Definition successors (g : DiGraph) (n : string) : list string :=
  Dict.keys (adj g n).

Definition predecessors (g : DiGraph) (n : string) : list string :=
  map fst (filter (fun '(_, succ) => Dict.mem String.eqb succ n) g).

Definition number_of_nodes (g : DiGraph) : Z := Z.of_nat (length g).
Definition number_of_edges (g : DiGraph) : Z := Z.of_nat (length (edges g)).

(** [G.degree(n)] of a directed graph: in-degree plus out-degree. *)
Definition degree (g : DiGraph) (n : string) : Z :=
  Z.of_nat (length (predecessors g n)) + Z.of_nat (length (successors g n)).

(** [nx.degree_centrality(G)[n]]: 1 on a graph of at most one node, the
    degree scaled by [1 / (len(G) - 1)] otherwise. *)
Definition degree_centrality (g : DiGraph) (n : string) : Q :=
  if (number_of_nodes g <=? 1)%Z then 1
  else inject_Z (degree g n) * (1 / (inject_Z (number_of_nodes g) - 1)).

(** *** [build_graph] *)

Record EdgeAcc := mkAcc {
  acc_weight : Q;
  acc_count : Z;
  acc_blocks : list Z
}.

(** The [defaultdict] factory [{"weight": 0.0, "count": 0, "blocks": set()}]. *)
Definition new_acc : EdgeAcc := mkAcc 0 0 [].

Definition pair_eqb (a b : string * string) : bool :=
  String.eqb (fst a) (fst b) && String.eqb (snd a) (snd b).

Definition EdgeAccs := list ((string * string) * EdgeAcc).

Definition record_tx (tx : Transaction.t) (a : EdgeAcc) : EdgeAcc :=
  mkAcc (acc_weight a + Transaction.value_eth tx)
        (acc_count a + 1)
        (PySet.add Z.eqb (acc_blocks a) (Transaction.block_number tx)).

(** The body of the aggregation loop; a transaction without recipient is
    skipped. *)
Definition aggregate_step (edge_data : EdgeAccs) (tx : Transaction.t)
  : EdgeAccs :=
  match Transaction.receiver tx with
  | None => edge_data
  | Some to_address =>
      Dict.update pair_eqb edge_data (Transaction.from_address tx, to_address)
        new_acc (record_tx tx)
  end.

Definition aggregate (txs : list Transaction.t) : EdgeAccs :=
  fold_left aggregate_step txs [].

Definition edge_of_acc (a : EdgeAcc) : EdgeData :=
  mkEdge (acc_weight a) (acc_count a) (Z.of_nat (length (acc_blocks a))).

Definition add_edges (g : DiGraph) (edge_data : EdgeAccs) : DiGraph :=
  fold_left (fun g '((src, dst), data) => add_edge g src dst (edge_of_acc data))
    edge_data g.

(** [build_graph]: the new value of [self.graph]. *)
Definition build_graph (db : Session) : DiGraph :=
  add_edges empty_graph (aggregate (transactions db)).

(** *** [detect_wash_trading] *)

Record WashPair := mkPair {
  wallet_a : string;
  wallet_b : string;
  value_a_to_b : Q;
  value_b_to_a : Q;
  value_similarity : Q;
  tx_count_a_to_b : Z;
  tx_count_b_to_a : Z;
  suspicion_score : Q
}.

Definition similarity (val_uv val_vu : Q) : Q :=
  let max_val := max val_uv val_vu in
  let min_val := min val_uv val_vu in
  if gtb max_val 0 then min_val / max_val else 0.

Definition raw_suspicion (sim : Q) (count_uv count_vu : Z) : Q :=
  sim * 50 + inject_Z (Z.min (count_uv + count_vu) 10) * 5.

(** The body of the edge loop: what one directed edge appends to
    [suspicious_pairs]. *)
Definition examine_edge (g : DiGraph) (e : string * string * EdgeData)
  : list WashPair :=
  let '(u, v, data_uv) := e in
  if has_edge g v u then
    match edge_data g v u with
    | None => []
    | Some data_vu =>
        let val_uv := weight data_uv in
        let val_vu := weight data_vu in
        if eqb val_uv 0 && eqb val_vu 0 then []
        else
          let sim := similarity val_uv val_vu in
          if gtb sim (8 # 10) then
            [ mkPair u v (round val_uv 6) (round val_vu 6) (round sim 4)
                (count data_uv) (count data_vu)
                (round (raw_suspicion sim (count data_uv) (count data_vu)) 2) ]
          else []
    end
  else [].

(** [tuple(sorted([a, b]))] *)
Definition sorted_pair (a b : string) : string * string :=
  if String.ltb b a then (b, a) else (a, b).

Definition pair_key (p : WashPair) : string * string :=
  sorted_pair (wallet_a p) (wallet_b p).

(** The deduplication loop, on the state [(seen, unique_pairs)]. *)
Definition dedup_step (st : list (string * string) * list WashPair)
  (pair : WashPair) : list (string * string) * list WashPair :=
  let '(seen, unique_pairs) := st in
  let key := pair_key pair in
  if PySet.contains pair_eqb seen key then st
  else (PySet.add pair_eqb seen key, unique_pairs ++ [pair]).

Definition deduplicate (pairs : list WashPair) : list WashPair :=
  snd (fold_left dedup_step pairs ([], [])).

Definition suspicious_pairs (g : DiGraph) : list WashPair :=
  flat_map (examine_edge g) (edges g).

Definition detect_wash_trading (g : DiGraph) : list WashPair :=
  PySort.sort (fun y x => gtb (suspicion_score y) (suspicion_score x))
    (deduplicate (suspicious_pairs g)).

(** *** [get_wallet_graph_score] *)

Definition neighbors (g : DiGraph) (address : string) : list string :=
  PySet.union String.eqb
    (PySet.of_list String.eqb (successors g address))
    (PySet.of_list String.eqb (predecessors g address)).

Definition bidirectional (g : DiGraph) (address : string) : Z :=
  Z.of_nat (length (filter (fun nbr => has_edge g address nbr && has_edge g nbr address)
                      (neighbors g address))).

Definition raw_graph_score (g : DiGraph) (address : string) : Q :=
  let score := 0 + degree_centrality g address * 30 in
  let nbrs := neighbors g address in
  let score :=
    match nbrs with
    | [] => score
    | _ => score + (inject_Z (bidirectional g address)
                    / inject_Z (Z.of_nat (length nbrs))) * 40
    end in
  score + inject_Z (Z.min (degree g address) 20) * (15 # 10).

Definition get_wallet_graph_score (g : DiGraph) (address : string) : Q :=
  if negb (has_node g address) then 0
  else min (round (raw_graph_score g address) 2) 100.

(** *** Cycles and centrality

    [nx.simple_cycles] and [nx.betweenness_centrality] are the library's;
    they are taken as given. *)
Section Networkx.
Variable simple_cycles : DiGraph -> list (list string).
Variable betweenness_centrality : DiGraph -> Z -> string -> Q.

(** The filtering loop of [detect_cycles], with its cap. *)
Fixpoint keep_cycles (max_length : Z) (all_cycles : list (list string))
  (cycles : list (list string)) : list (list string) :=
  match all_cycles with
  | [] => cycles
  | cycle :: rest =>
      let n := Z.of_nat (length cycle) in
      let cycles :=
        if (2 <=? n)%Z && (n <=? max_length)%Z then cycles ++ [cycle]
        else cycles in
      if (200 <=? Z.of_nat (length cycles))%Z then cycles
      else keep_cycles max_length rest cycles
  end.

Definition detect_cycles (g : DiGraph) (max_length : Z) : list (list string) :=
  keep_cycles max_length (simple_cycles g) [].

Record Centrality := mkCentrality {
  c_address : string;
  c_degree_centrality : Q;
  c_betweenness_centrality : Q;
  centrality_score : Q
}.

Definition compute_centrality (g : DiGraph) (top_n : nat) : list Centrality :=
  if (number_of_nodes g =? 0)%Z then []
  else
    let between := betweenness_centrality g (Z.min 50 (number_of_nodes g)) in
    let combined :=
      map (fun node =>
             let score := (degree_centrality g node * (6 # 10)
                           + between node * (4 # 10)) * 100 in
             mkCentrality node (round (degree_centrality g node) 4)
               (round (between node) 4) (round score 2))
        (nodes g) in
    firstn top_n
      (PySort.sort (fun y x => gtb (centrality_score y) (centrality_score x))
         combined).
End Networkx.

End GraphAnalysis.


(** ** Feature extraction and models ([services/ml_engine.py]) *)

Module MLEngine.

Record WalletData := mkData {
  sent_values : list Q;
  received_values : list Q;
  counterparties : list string;
  timestamps : list Q;
  blocks : list (Z * Z)
}.

Definition new_data : WalletData := mkData [] [] [] [] [].

(** The sender statistics of one transaction. *)
Definition record_sent (tx : Transaction.t) (receiver : option string)
  (d : WalletData) : WalletData :=
  mkData (sent_values d ++ [Transaction.value_eth tx])
         (received_values d)
         (match receiver with
          | Some r => PySet.add String.eqb (counterparties d) r
          | None => counterparties d
          end)
         (timestamps d ++ [Transaction.timestamp tx])
         (Dict.update Z.eqb (blocks d) (Transaction.block_number tx) 0%Z
            (fun n => (n + 1)%Z)).

(** The receiver statistics of one transaction. *)
Definition record_received (tx : Transaction.t) (d : WalletData) : WalletData :=
  mkData (sent_values d)
         (received_values d ++ [Transaction.value_eth tx])
         (PySet.add String.eqb (counterparties d) (Transaction.from_address tx))
         (timestamps d ++ [Transaction.timestamp tx])
         (Dict.update Z.eqb (blocks d) (Transaction.block_number tx) 0%Z
            (fun n => (n + 1)%Z)).

Definition WalletDatas := list (string * WalletData).

Definition collect_step (wallet_data : WalletDatas) (tx : Transaction.t)
  : WalletDatas :=
  let sender := Transaction.from_address tx in
  let receiver := Transaction.receiver tx in
  let wd := Dict.update String.eqb wallet_data sender new_data
              (record_sent tx receiver) in
  match receiver with
  | Some r => Dict.update String.eqb wd r new_data (record_received tx)
  | None => wd
  end.

Definition collect (txs : list Transaction.t) : WalletDatas :=
  fold_left collect_step txs [].

(** [sum(values)] *)
Definition sum (l : list Q) : Q := fold_left Qplus l 0.

Record RawProfile := mkRaw {
  address : string;
  tx_count : Z;
  total_value_sent : Q;
  total_value_received : Q;
  avg_value : Q;
  unique_counterparties : Z;
  inflow_outflow_ratio : Q;
  tx_frequency : Q;
  burst_score : Q
}.

Definition sorted (l : list Q) : list Q := PySort.sort (fun y x => ltb y x) l.

Definition max_Z (l : list Z) : Z :=
  match l with
  | [] => 0
  | x :: xs => fold_left (fun m y => if (m <? y)%Z then y else m) xs x
  end.

(** The body of the loop over [wallet_data.items()]. *)
Definition profile_of (addr : string) (data : WalletData) : RawProfile :=
  let total_sent := sum (sent_values data) in
  let total_received := sum (received_values data) in
  let tx_count := (Z.of_nat (length (sent_values data))
                   + Z.of_nat (length (received_values data)))%Z in
  let avg_value := (total_sent + total_received)
                   / inject_Z (Z.max tx_count 1) in
  let unique_cp := Z.of_nat (length (counterparties data)) in
  let inflow := if gtb total_received 0 then total_received else 1 # 1000 in
  let outflow := if gtb total_sent 0 then total_sent else 1 # 1000 in
  let io_ratio := inflow / outflow in
  let tx_freq :=
    if (2 <=? Z.of_nat (length (timestamps data)))%Z then
      let sorted_ts := sorted (timestamps data) in
      let span_hours := max ((last sorted_ts 0 - hd 0 sorted_ts) / 3600) (1 # 100) in
      inject_Z tx_count / span_hours
    else 0 in
  let burst := max_Z (Dict.values (blocks data)) in
  mkRaw addr tx_count total_sent total_received avg_value unique_cp io_ratio
    tx_freq (inject_Z burst).

Definition feature_row (p : RawProfile) : list Q :=
  [ inject_Z (tx_count p); total_value_sent p; total_value_received p;
    avg_value p; inject_Z (unique_counterparties p); inflow_outflow_ratio p;
    tx_frequency p; burst_score p ].

(** [extract_features]: the raw profiles, in the order of [wallet_data];
    the address list and the feature matrix are read off them. *)
Definition extract_features (db : Session) : list RawProfile :=
  let transactions := order_by_timestamp (transactions db) in
  match transactions with
  | [] => []
  | _ => map (fun '(addr, data) => profile_of addr data) (collect transactions)
  end.

Definition addresses (profiles : list RawProfile) : list string :=
  map address profiles.

Definition feature_matrix (profiles : list RawProfile) : list (list Q) :=
  map feature_row profiles.

Record TrainResult := mkTrain {
  status : string;
  wallets : Z;
  clusters : option Z
}.

Record Prediction := mkPrediction {
  raw : RawProfile;
  is_anomaly : bool;
  anomaly_score : Q;
  cluster_label : Z
}.

Definition minimum (l : list Q) : Q :=
  match l with [] => 0 | x :: xs => fold_left min xs x end.

Definition maximum (l : list Q) : Q :=
  match l with [] => 0 | x :: xs => fold_left max xs x end.

(** [.clip(0, 100)] on one entry. *)
Definition clip (x : Q) : Q := min (max x 0) 100.

(** Normalisation of the raw decision values to 0-100. *)
Definition normalize (anomaly_scores_raw : list Q) : list Q :=
  let min_score := minimum anomaly_scores_raw in
  let max_score := maximum anomaly_scores_raw in
  let score_range :=
    if negb (eqb max_score min_score) then max_score - min_score else 1 in
  map (fun r => clip ((max_score - r) / score_range * 100)) anomaly_scores_raw.

(** The fitted estimators are scikit-learn's (scaler, isolation forest,
    k-means); fitting and inference are taken as given. *)
Section Sklearn.
Variable Model : Type.
(** [fit X k]: scaler, forest and a [k]-cluster k-means fitted on [X]. *)
Variable fit : list (list Q) -> Z -> Model.
(** Forest labels ([-1] anomalous, [1] normal), raw decision values and
    cluster labels, one per row. *)
Variable forest_predict : Model -> list (list Q) -> list Z.
Variable decision_function : Model -> list (list Q) -> list Q.
Variable kmeans_predict : Model -> list (list Q) -> list Z.
(** [N_CLUSTERS] of the configuration. *)
Variable N_CLUSTERS : Z.

(** The engine: the fitted state, [None] while [_is_trained] is false. *)
Definition t := option Model.

Definition is_trained (self : t) : bool :=
  match self with Some _ => true | None => false end.

Definition train (self : t) (db : Session) : t * TrainResult :=
  let profiles := extract_features db in
  let n := Z.of_nat (length (addresses profiles)) in
  if (n <? 5)%Z then
    (self, mkTrain "insufficient_data" n None)
  else
    let effective_k := Z.min N_CLUSTERS n in
    (Some (fit (feature_matrix profiles) effective_k),
     mkTrain "trained" n (Some effective_k)).

Definition predict_with (m : Model) (profiles : list RawProfile)
  : list Prediction :=
  let X := feature_matrix profiles in
  let anomaly_labels := forest_predict m X in
  let anomaly_scores := normalize (decision_function m X) in
  let cluster_labels := kmeans_predict m X in
  map (fun '(i, p) =>
         mkPrediction p
           (Z.eqb (nth i anomaly_labels 1%Z) (-1))
           (round (nth i anomaly_scores 0) 2)
           (nth i cluster_labels 0%Z))
    (combine (seq 0 (length profiles)) profiles).

Definition predict (self : t) (db : Session) : t * list Prediction :=
  let profiles := extract_features db in
  if (Z.of_nat (length (addresses profiles)) <? 5)%Z then (self, [])
  else
    let self := if is_trained self then self else fst (train self db) in
    match self with
    | Some m => (self, predict_with m profiles)
    | None => (self, [])
    end.
End Sklearn.

Definition profile_row (pred : Prediction) : WalletProfile.t :=
  let p := raw pred in
  WalletProfile.mk (address p) (tx_count p) (total_value_sent p)
    (total_value_received p) (avg_value p) (unique_counterparties p)
    (inflow_outflow_ratio p) (tx_frequency p) (burst_score p)
    (cluster_label pred) (anomaly_score pred).

(** Insert or overwrite the row of [row]'s address. *)
Fixpoint upsert_profile (rows : list WalletProfile.t) (row : WalletProfile.t)
  : list WalletProfile.t :=
  match rows with
  | [] => [row]
  | r :: rest =>
      if String.eqb (WalletProfile.address r) (WalletProfile.address row)
      then row :: rest
      else r :: upsert_profile rest row
  end.

Definition update_wallet_profiles (db : Session) (predictions : list Prediction)
  : Session :=
  mkSession (transactions db)
    (fold_left (fun rows pred => upsert_profile rows (profile_row pred))
       predictions (wallet_profiles db))
    (risk_scores db) (alerts db).

End MLEngine.


(** ** Risk scoring ([services/risk_engine.py], [config.py]) *)

Module RiskEngine.

Record Weights := mkWeights {
  ml_anomaly : Q;
  graph_suspicion : Q;
  flash_loan : Q;
  wash_trade : Q
}.

Definition RISK_WEIGHTS : Weights :=
  mkWeights (35 # 100) (25 # 100) (20 # 100) (20 # 100).

Record RiskResult := mkResult {
  wallet_address : string;
  composite_score : Q;
  ml_anomaly_score : Q;
  graph_score : Q;
  flash_loan_score : Q;
  wash_trade_score : Q;
  severity : string;
  explanation : list Reason
}.

(** [db.query(WalletProfile).filter_by(address=address).first()] *)
Definition find_profile (db : Session) (address : string)
  : option WalletProfile.t :=
  find (fun p => String.eqb (WalletProfile.address p) address)
    (wallet_profiles db).

(** [db.query(RiskScore).filter_by(wallet_address=address).first()] *)
Definition find_risk (db : Session) (address : string) : option RiskScore.t :=
  find (fun r => String.eqb (RiskScore.wallet_address r) address)
    (risk_scores db).

Definition ml_score_of (db : Session) (address : string) : Q :=
  match find_profile db address with
  | Some profile => WalletProfile.risk_score profile
  | None => 0
  end.

(** The loop over [wash_pairs]. *)
Definition wash_score_of (wash_pairs : list GraphAnalysis.WashPair)
  (address : string) : Q :=
  fold_left
    (fun wash_score pair =>
       if String.eqb (GraphAnalysis.wallet_a pair) address
          || String.eqb (GraphAnalysis.wallet_b pair) address
       then max wash_score (GraphAnalysis.suspicion_score pair)
       else wash_score)
    wash_pairs 0.

(** The composite of four component scores. *)
Definition composite_of (w : Weights) (ml_score graph_score flash_score
  wash_score : Q) : Q :=
  let composite :=
    ml_anomaly w * ml_score + graph_suspicion w * graph_score
    + flash_loan w * flash_score + wash_trade w * wash_score in
  min (round composite 2) 100.

Definition severity_of (composite : Q) : string :=
  if geb composite 75 then "critical"
  else if geb composite 50 then "high"
  else if geb composite 25 then "medium"
  else "low".

Definition explanations_of (ml_score graph_score flash_score wash_score : Q)
  : list Reason :=
  (if gtb ml_score 50 then [MlAnomalyHigh ml_score] else [])
  ++ (if gtb graph_score 30 then [GraphSuspicious graph_score] else [])
  ++ (if gtb flash_score 50 then [FlashLoanLike flash_score] else [])
  ++ (if gtb wash_score 40 then [WashTradingLike wash_score] else []).

(** Overwrite the first risk row of [row]'s wallet, or add one. *)
Fixpoint upsert_risk (rows : list RiskScore.t) (row : RiskScore.t)
  : list RiskScore.t :=
  match rows with
  | [] => [row]
  | r :: rest =>
      if String.eqb (RiskScore.wallet_address r) (RiskScore.wallet_address row)
      then row :: rest
      else r :: upsert_risk rest row
  end.

(** [compute_risk]: the session after the upsert and the returned breakdown.
    [g] is the analyzer's current graph. *)
Definition compute_risk (db : Session) (g : GraphAnalysis.DiGraph)
  (address : string) : Session * RiskResult :=
  let ml_score := ml_score_of db address in
  let graph_score := GraphAnalysis.get_wallet_graph_score g address in
  let flash_score :=
    FlashLoan.get_wallet_flash_score FlashLoan.flash_loan_detector db address in
  let wash_pairs := GraphAnalysis.detect_wash_trading g in
  let wash_score := wash_score_of wash_pairs address in
  let composite :=
    composite_of RISK_WEIGHTS ml_score graph_score flash_score wash_score in
  let explanation :=
    explanations_of ml_score graph_score flash_score wash_score in
  let severity := severity_of composite in
  let result :=
    mkResult address composite (round ml_score 2) (round graph_score 2)
      (round flash_score 2) (round wash_score 2) severity explanation in
  let risk_record :=
    RiskScore.mk address composite ml_score graph_score flash_score wash_score
      explanation in
  (mkSession (transactions db) (wallet_profiles db)
     (upsert_risk (risk_scores db) risk_record) (alerts db),
   result).

Definition alert_type_of (risk : RiskResult) : string :=
  if gtb (flash_loan_score risk) 50 then "flash_loan"
  else if gtb (wash_trade_score risk) 40 then "wash_trade"
  else if gtb (graph_score risk) 30 then "high_centrality"
  else "anomaly".

Definition add_alert (db : Session) (a : Alert.t) : Session :=
  mkSession (transactions db) (wallet_profiles db) (risk_scores db)
    (alerts db ++ [a]).

(** The body of the loop over the profiles, on the state
    [(db, alerts_generated)]. *)
Definition score_profile (g : GraphAnalysis.DiGraph) (st : Session * Z)
  (profile : WalletProfile.t) : Session * Z :=
  let '(db, alerts_generated) := st in
  let '(db, risk) := compute_risk db g (WalletProfile.address profile) in
  if geb (composite_score risk) 40 then
    let alert :=
      Alert.mk (WalletProfile.address profile) (alert_type_of risk)
        (severity risk) (composite_score risk) (explanation risk) in
    (add_alert db alert, (alerts_generated + 1)%Z)
  else (db, alerts_generated).

Record Summary := mkSummary {
  ml_training : MLEngine.TrainResult;
  wallets_profiled : Z;
  graph_nodes : Z;
  graph_edges : Z;
  cycles_detected : Z;
  wash_trade_pairs : Z;
  flash_loan_events : Z;
  high_centrality_wallets : Z;
  alerts_generated : Z
}.

(** The process-wide singletons next to the session. *)
Record Services (Model : Type) := mkServices {
  ml_engine : option Model;
  graph : GraphAnalysis.DiGraph
}.
Arguments mkServices {Model}.
Arguments ml_engine {Model}.
Arguments graph {Model}.

Section Pipeline.
Variable Model : Type.
Variable fit : list (list Q) -> Z -> Model.
Variable forest_predict : Model -> list (list Q) -> list Z.
Variable decision_function : Model -> list (list Q) -> list Q.
Variable kmeans_predict : Model -> list (list Q) -> list Z.
Variable N_CLUSTERS : Z.
Variable simple_cycles : GraphAnalysis.DiGraph -> list (list string).
Variable betweenness_centrality : GraphAnalysis.DiGraph -> Z -> string -> Q.

Definition run_full_detection (sv : Services Model) (db : Session)
  : Services Model * Session * Summary :=
  (* Step 1: ML *)
  let '(ml1, train_result) := MLEngine.train Model fit N_CLUSTERS (ml_engine sv) db in
  let '(ml2, predictions) :=
    MLEngine.predict Model fit forest_predict decision_function
      kmeans_predict N_CLUSTERS ml1 db in
  let db := MLEngine.update_wallet_profiles db predictions in
  (* Step 2: graph *)
  let g := GraphAnalysis.build_graph db in
  let cycles := GraphAnalysis.detect_cycles simple_cycles g 4 in
  let wash_pairs := GraphAnalysis.detect_wash_trading g in
  let central_wallets :=
    GraphAnalysis.compute_centrality betweenness_centrality g 20 in
  (* Step 3: flash loans *)
  let flash_events := FlashLoan.detect FlashLoan.flash_loan_detector db in
  (* Step 4: composite risk of every profiled wallet *)
  let profiles := wallet_profiles db in
  let '(db, alerts_generated) :=
    fold_left (score_profile g) profiles (db, 0%Z) in
  (mkServices ml2 g, db,
   mkSummary train_result (Z.of_nat (length predictions))
     (GraphAnalysis.number_of_nodes g) (GraphAnalysis.number_of_edges g)
     (Z.of_nat (length cycles)) (Z.of_nat (length wash_pairs))
     (Z.of_nat (length flash_events)) (Z.of_nat (length central_wallets))
     alerts_generated).
End Pipeline.

End RiskEngine.


(** *** What the grouping accumulates, per (block, wallet) *)

Module FlashTotals.

Definition receives (tx : Transaction.t) (w : string) : bool :=
  match Transaction.receiver tx with
  | Some r => String.eqb r w
  | None => false
  end.

Definition in_block (tx : Transaction.t) (b : Z) : bool :=
  Z.eqb (Transaction.block_number tx) b.



(** [w] takes part in a transaction of block [b]. *)
Definition participates (txs : list Transaction.t) (b : Z) (w : string) : bool :=
  existsb (fun tx => in_block tx b
                     && (String.eqb (Transaction.from_address tx) w
                         || receives tx w)) txs.

(** The entry of a (block, wallet) pair in the grouping. *)
Definition flows_at (bw : FlashLoan.BlockWallet) (b : Z) (w : string)
  : option FlashLoan.Flows :=
  match Dict.get Z.eqb bw b with
  | Some wallets => Dict.get String.eqb wallets w
  | None => None
  end.

End FlashTotals.


(** *** What [build_graph] aggregates, per ordered pair *)

Module EdgeTotals.

(** [tx] is a transfer from [u] to [v]. *)
Definition sends (u v : string) (tx : Transaction.t) : bool :=
  String.eqb (Transaction.from_address tx) u && FlashTotals.receives tx v.

(** Sum, in list order, of the values [u] sent to [v]. *)
Definition sent_value (txs : list Transaction.t) (u v : string) : Q :=
  fold_left (fun s tx => if sends u v tx then s + Transaction.value_eth tx else s)
    txs 0.

Definition sent_count (txs : list Transaction.t) (u v : string) : Z :=
  Z.of_nat (length (filter (sends u v) txs)).

(** The blocks of the transfers from [u] to [v], each once. *)
Definition sent_blocks (txs : list Transaction.t) (u v : string) : list Z :=
  PySet.of_list Z.eqb (map Transaction.block_number (filter (sends u v) txs)).

End EdgeTotals.

(** *** What [extract_features] collects, per wallet *)

Module WalletTotals.

(** [tx] is sent by [w]. *)
Definition sent_by (w : string) (tx : Transaction.t) : bool :=
  String.eqb (Transaction.from_address tx) w.

(** [tx] has the recipient [w]. *)
Definition received_by (w : string) (tx : Transaction.t) : bool :=
  FlashTotals.receives tx w.

(** The values [w] sent, in list order. *)
Definition sent (txs : list Transaction.t) (w : string) : list Q :=
  map Transaction.value_eth (filter (sent_by w) txs).

(** The values [w] received, in list order. *)
Definition received (txs : list Transaction.t) (w : string) : list Q :=
  map Transaction.value_eth (filter (received_by w) txs).

(** The entry of [w] as the [defaultdict] yields it. *)
Definition data_or_new (wallet_data : MLEngine.WalletDatas) (w : string)
  : MLEngine.WalletData :=
  Dict.get_default String.eqb wallet_data w MLEngine.new_data.

End WalletTotals.


(** *** Well-formed graphs: no node and no successor is listed twice *)

Fixpoint nodupb {A : Type} (eqb : A -> A -> bool) (l : list A) : bool :=
  match l with
  | [] => true
  | x :: l' => negb (existsb (eqb x) l') && nodupb eqb l'
  end.

Definition well_formed (g : GraphAnalysis.DiGraph) : bool :=
  nodupb String.eqb (Dict.keys g)
  && forallb (fun '(_, succ) => nodupb String.eqb (Dict.keys succ)) g.


(** *** Auxiliary notions of the proofs *)

Definition acc_or_new (o : option GraphAnalysis.EdgeAcc) : GraphAnalysis.EdgeAcc :=
  match o with Some a => a | None => GraphAnalysis.new_acc end.

(** The effect of one transaction on the accumulator of the pair [(u, v)]. *)
Definition acc_step (u v : string) (o : option GraphAnalysis.EdgeAcc)
  (tx : Transaction.t) : option GraphAnalysis.EdgeAcc :=
  if EdgeTotals.sends u v tx
  then Some (GraphAnalysis.record_tx tx (acc_or_new o)) else o.

(** Well-formedness in terms of look-ups. *)
Definition wf_graph (g : GraphAnalysis.DiGraph) : Prop :=
  NoDup (Dict.keys g) /\ forall u, NoDup (Dict.keys (GraphAnalysis.adj g u)).


(** The alerts one profile contributes in [run_full_detection], scored
    against the session [db]. *)
Definition alert_of (db : Session) (g : GraphAnalysis.DiGraph)
  (profile : WalletProfile.t) : list Alert.t :=
  let risk := snd (RiskEngine.compute_risk db g (WalletProfile.address profile)) in
  if geb (RiskEngine.composite_score risk) 40 then
    [ Alert.mk (WalletProfile.address profile) (RiskEngine.alert_type_of risk)
        (RiskEngine.severity risk) (RiskEngine.composite_score risk)
        (RiskEngine.explanation risk) ]
  else [].


(** Well-formed groupings: no block and no wallet of a block is listed twice. *)
Definition wf_block_wallet (bw : FlashLoan.BlockWallet) : Prop :=
  NoDup (Dict.keys bw) /\
  forall b wallets, Dict.get Z.eqb bw b = Some wallets -> NoDup (Dict.keys wallets).

Definition flows_or_new (o : option FlashLoan.Flows) : FlashLoan.Flows :=
  match o with Some f => f | None => FlashLoan.new_flows end.

(** The effect of one transaction on the entry of [(b, w)]. *)
Definition flow_step (b : Z) (w : string) (o : option FlashLoan.Flows)
  (tx : Transaction.t) : option FlashLoan.Flows :=
  let v := Transaction.value_eth tx in
  let h := Transaction.tx_hash tx in
  let o1 :=
    if FlashTotals.in_block tx b && String.eqb (Transaction.from_address tx) w
    then Some (FlashLoan.add_outflow v h (flows_or_new o)) else o in
  if FlashTotals.in_block tx b && FlashTotals.receives tx w
  then Some (FlashLoan.add_inflow v h (flows_or_new o1)) else o1.

(** ** Sample data *)

Module Samples.

Definition transfer (h : string) (b : Z) (src dst : string) (v : Q)
  : Transaction.t :=
  Transaction.mk h b src (Some dst) v 0.

Definition session_of (txs : list Transaction.t) : Session :=
  mkSession txs [] [] [].

(** A sends 3.0 to B and B sends 3.1 to A, both in block 1. *)
Definition near_equal : Session :=
  session_of [transfer "h1" 1 "A" "B" 3; transfer "h2" 1 "B" "A" (31 # 10)].

(** Scenario A of the specification. *)
Definition scenario_a : Session :=
  session_of [transfer "h1" 100 "A" "B" 10; transfer "h2" 100 "B" "A" 10].


(** A contract creation: a transaction of A without recipient. *)
Definition contract_creation : Session :=
  session_of [Transaction.mk "h1" 1 "A" None 1 0].

(** A sends to itself twice. *)
Definition self_transfer : Session :=
  session_of [transfer "h1" 1 "A" "A" 5; transfer "h2" 2 "A" "A" 1].



(** A receives 0.0005 from B and sends 1 to B. *)
Definition dust_receiver : Session :=
  session_of [transfer "h1" 1 "B" "A" (5 # 10000); transfer "h2" 2 "A" "B" 1].

(** Three transfers among five wallets. *)
Definition five_wallets : Session :=
  session_of [transfer "h1" 1 "A" "B" 1; transfer "h2" 2 "C" "D" 2;
              transfer "h3" 3 "E" "A" 3].


(** A database whose only constraint is the unique index on [tx_hash]. *)
Definition unique_hashes (rows pending : list Transaction.t) : bool :=
  nodupb String.eqb (map Transaction.tx_hash (rows ++ pending)).

(** Estimators that fit nothing and label every row as normal. *)
Definition no_labels (_ : unit) (_ : list (list Q)) : list Z := [].
Definition no_values (_ : unit) (_ : list (list Q)) : list Q := [].


End Samples.



(** ** The graph view ([get_graph_data]) and its endpoint ([main.py]) *)

Module GraphView.





End GraphView.

(** A cycle [detect_cycles] retains. *)
Definition qualifying_cycle (max_length : Z) (cycle : list string) : bool :=
  (2 <=? Z.of_nat (length cycle))%Z && (Z.of_nat (length cycle) <=? max_length)%Z.




(** ** Storing transactions ([services/blockchain.py]) *)

Module Blockchain.

(** [db.query(Transaction).filter_by(tx_hash=h).first()]: the session does
    not flush before a query ([autoflush=False] in [database.py]), so the
    rows of the table are seen and the pending ones are not. *)
Definition find_hash (db : Session) (h : string) : option Transaction.t :=
  find (fun row => String.eqb (Transaction.tx_hash row) h) (transactions db).

(** No row of the table has the hash of [tx_data]. *)
Definition is_new (db : Session) (tx_data : Transaction.t) : bool :=
  match find_hash db (Transaction.tx_hash tx_data) with
  | Some _ => false
  | None => true
  end.

(** One turn of the loop of [store_transactions], on the pending rows and
    [stored]; the query is taken not to raise. *)
Definition add_step (db : Session) (st : list Transaction.t * Z)
  (tx_data : Transaction.t) : list Transaction.t * Z :=
  match find_hash db (Transaction.tx_hash tx_data) with
  | Some _ => st
  | None => (fst st ++ [tx_data], (snd st + 1)%Z)
  end.

Record IngestResult := mkIngest {
  latest_block : Z;
  blocks_processed : Z;
  transactions_fetched : Z;
  new_transactions_stored : Z
}.

(** [range(start_block, latest + 1)] *)
Definition block_range (start_block latest : Z) : list Z :=
  map (fun i => (start_block + Z.of_nat i)%Z)
    (seq 0 (Z.to_nat (latest + 1 - start_block))).

Section Database.
(** [accepts rows pending]: the database takes the pending rows into the
    table that holds [rows]; otherwise the flush of [db.commit()] raises. *)
Variable accepts : list Transaction.t -> list Transaction.t -> bool.
(** The parsed transactions of a block, from the node or simulated. *)
Variable fetch_block_transactions : Z -> list Transaction.t.

(** [db.commit()], with [None] for an exception. *)
Definition commit (db : Session) (pending : list Transaction.t)
  : option Session :=
  if accepts (transactions db) pending
  then Some (mkSession (transactions db ++ pending) (wallet_profiles db)
               (risk_scores db) (alerts db))
  else None.

(** [store_transactions]: the session after it and the count returned; a
    failed commit is rolled back. *)
Definition store_transactions (db : Session) (tx_list : list Transaction.t)
  : Session * Z :=
  let '(pending, stored) := fold_left (add_step db) tx_list ([], 0%Z) in
  if (0 <? stored)%Z then
    match commit db pending with
    | Some db' => (db', stored)
    | None => (db, 0%Z)
    end
  else (db, stored).

(** One block of [ingest_latest_blocks], on the session, [total_txs] and
    [total_stored]. *)
Definition ingest_step (st : Session * Z * Z) (block_num : Z)
  : Session * Z * Z :=
  let '(db, total_txs, total_stored) := st in
  let txs := fetch_block_transactions block_num in
  let '(db', stored) := store_transactions db txs in
  (db', (total_txs + Z.of_nat (length txs))%Z, (total_stored + stored)%Z).

(** [ingest_latest_blocks], given the latest block number. *)
Definition ingest_latest_blocks (db : Session) (latest n_blocks : Z)
  : Session * IngestResult :=
  let start_block := (latest - n_blocks + 1)%Z in
  let '(db', total_txs, total_stored) :=
    fold_left ingest_step (block_range start_block latest) (db, 0%Z, 0%Z) in
  (db', mkIngest latest n_blocks total_txs total_stored).
End Database.

End Blockchain.


(** ** The risk-score endpoint ([main.py]) *)

Module Api.

Inductive RiskResponse :=
| NoTransactions (wallet_address : string)
| Scored (risk : RiskEngine.RiskResult) (tx_count : Z).

(** The ["severity"], ["composite_score"] and ["tx_count"] of a response. *)
Definition severity (r : RiskResponse) : string :=
  match r with
  | NoTransactions _ => "unknown"
  | Scored risk _ => RiskEngine.severity risk
  end.

Definition composite_score (r : RiskResponse) : Q :=
  match r with
  | NoTransactions _ => 0
  | Scored risk _ => RiskEngine.composite_score risk
  end.

Definition tx_count (r : RiskResponse) : Z :=
  match r with
  | NoTransactions _ => 0%Z
  | Scored _ n => n
  end.

(** [(Transaction.from_address == a) | (Transaction.to_address == a)] *)
Definition involves (wallet_address : string) (tx : Transaction.t) : bool :=
  String.eqb (Transaction.from_address tx) wallet_address
  || match Transaction.to_address tx with
     | Some a => String.eqb a wallet_address
     | None => false
     end.

(** The [/api/risk-score/{wallet_address}] handler, on the address in lower
    case and the analyzer's current graph. *)
Definition get_risk_score (g : GraphAnalysis.DiGraph) (db : Session)
  (wallet_address : string) : Session * RiskResponse :=
  let tx_count :=
    Z.of_nat (length (filter (involves wallet_address) (transactions db))) in
  if (tx_count =? 0)%Z then (db, NoTransactions wallet_address)
  else
    let '(db', risk) := RiskEngine.compute_risk db g wallet_address in
    (db', Scored risk tx_count).

(** [ORDER BY block_number DESC, id DESC]; the ids ascend in the order of
    the table. *)
Definition latest_first (rows : list Transaction.t) : list Transaction.t :=
  PySort.sort (fun y x => (Transaction.block_number x
                           <? Transaction.block_number y)%Z) (rev rows).

(** The [/api/live-transactions] handler: ["count"] and ["transactions"]. *)
Definition get_live_transactions (db : Session) (limit : nat)
  : Z * list Transaction.t :=
  let txns := firstn limit (latest_first (transactions db)) in
  (Z.of_nat (length txns), txns).

End Api.


(** * Properties *)

(** ** Numbers *)

Lemma pow10_pos n : 0 < pow10 n.
Proof.
  unfold pow10. change 0 with (inject_Z 0). rewrite <- Zlt_Qlt.
  apply Z.pow_pos_nonneg; lia.
Qed.

Lemma pow10_neq n : ~ pow10 n == 0.
Proof. intro H. pose proof (pow10_pos n) as P. rewrite H in P. discriminate. Qed.

Lemma gtb_true a b : gtb a b = true <-> b < a.
Proof.
  unfold gtb. destruct (Qlt_le_dec b a) as [H|H]; split; intro E;
    try easy. exfalso. apply (Qlt_not_le _ _ E H).
Qed.

Lemma ltb_true a b : ltb a b = true <-> a < b.
Proof.
  unfold ltb. destruct (Qlt_le_dec a b) as [H|H]; split; intro E;
    try easy. exfalso. apply (Qlt_not_le _ _ E H).
Qed.

Lemma geb_true a b : geb a b = true <-> b <= a.
Proof. unfold geb. apply Qle_bool_iff. Qed.

Lemma leb_true a b : leb a b = true <-> a <= b.
Proof. unfold leb. apply Qle_bool_iff. Qed.

Lemma geb_false a b : geb a b = false <-> a < b.
Proof.
  unfold geb. split; intro H.
  - apply Qnot_le_lt. intro L. apply Qle_bool_iff in L. congruence.
  - destruct (Qle_bool b a) eqn:E; [|reflexivity].
    apply Qle_bool_iff in E. exfalso. apply (Qlt_not_le _ _ H E).
Qed.

Lemma gtb_false a b : gtb a b = false <-> a <= b.
Proof.
  unfold gtb. destruct (Qlt_le_dec b a) as [H|H]; split; intro E;
    try easy. exfalso. apply (Qlt_not_le _ _ H E).
Qed.

Lemma ltb_false a b : ltb a b = false <-> b <= a.
Proof.
  unfold ltb. destruct (Qlt_le_dec a b) as [H|H]; split; intro E;
    try easy. exfalso. apply (Qlt_not_le _ _ H E).
Qed.


#[export] Instance ltb_proper : Proper (Qeq ==> Qeq ==> eq) ltb.
Proof.
  intros a a' Ha b b' Hb.
  destruct (ltb a b) eqn:E; symmetry.
  - apply ltb_true. apply ltb_true in E. now rewrite <- Ha, <- Hb.
  - apply ltb_false. apply ltb_false in E. now rewrite <- Ha, <- Hb.
Qed.

#[export] Instance geb_proper : Proper (Qeq ==> Qeq ==> eq) geb.
Proof.
  intros a a' Ha b b' Hb.
  destruct (geb a b) eqn:E; symmetry.
  - apply geb_true. apply geb_true in E. now rewrite <- Ha, <- Hb.
  - apply geb_false. apply geb_false in E. now rewrite <- Ha, <- Hb.
Qed.

Lemma max_spec a b : (a < b /\ max a b = b) \/ (b <= a /\ max a b = a).
Proof. unfold max. destruct (Qlt_le_dec a b); auto. Qed.

Lemma min_spec a b : (b < a /\ min a b = b) \/ (a <= b /\ min a b = a).
Proof. unfold min. destruct (Qlt_le_dec b a); auto. Qed.

#[export] Instance max_proper : Proper (Qeq ==> Qeq ==> Qeq) max.
Proof.
  intros a a' Ha b b' Hb.
  destruct (max_spec a b) as [[L ->]|[L ->]], (max_spec a' b') as [[L' ->]|[L' ->]];
    lra.
Qed.

#[export] Instance min_proper : Proper (Qeq ==> Qeq ==> Qeq) min.
Proof.
  intros a a' Ha b b' Hb.
  destruct (min_spec a b) as [[L ->]|[L ->]], (min_spec a' b') as [[L' ->]|[L' ->]];
    lra.
Qed.

Lemma min_le_r a b : min a b <= b.
Proof.
  destruct (min_spec a b) as [[L ->]|[L ->]]; [apply Qle_refl|assumption].
Qed.

Lemma min_le_l a b : min a b <= a.
Proof.
  destruct (min_spec a b) as [[L ->]|[L ->]];
    [now apply Qlt_le_weak|apply Qle_refl].
Qed.

Lemma min_glb a b c : c <= a -> c <= b -> c <= min a b.
Proof. intros. destruct (min_spec a b) as [[L ->]|[L ->]]; assumption. Qed.

Lemma max_ge_l a b : a <= max a b.
Proof.
  destruct (max_spec a b) as [[L ->]|[L ->]];
    [now apply Qlt_le_weak|apply Qle_refl].
Qed.

Lemma max_ge_r a b : b <= max a b.
Proof.
  destruct (max_spec a b) as [[L ->]|[L ->]]; [apply Qle_refl|assumption].
Qed.

(** *** Rounding to the nearest integer *)

#[export] Instance round_half_even_proper : Proper (Qeq ==> eq) round_half_even.
Proof.
  intros x y E. unfold round_half_even.
  rewrite (Qfloor_comp _ _ E).
  assert (C : Qcompare (x - inject_Z (Qfloor y)) (1 # 2)
              = Qcompare (y - inject_Z (Qfloor y)) (1 # 2))
    by now rewrite E.
  now rewrite C.
Qed.

Lemma round_half_even_cases x :
  let f := Qfloor x in
  (x - inject_Z f < 1 # 2 /\ round_half_even x = f) \/
  (1 # 2 < x - inject_Z f /\ round_half_even x = (f + 1)%Z) \/
  (x - inject_Z f == 1 # 2 /\
   (round_half_even x = f \/ round_half_even x = (f + 1)%Z)).
Proof.
  intro f. unfold round_half_even. fold f.
  destruct (Qcompare_spec (x - inject_Z f) (1 # 2)) as [C|C|C].
  - right; right. split; [assumption|].
    destruct (Z.even f); auto.
  - auto.
  - auto.
Qed.

Lemma floor_frac_bounds x :
  0 <= x - inject_Z (Qfloor x) /\ x - inject_Z (Qfloor x) < 1.
Proof.
  pose proof (Qfloor_le x) as L. pose proof (Qlt_floor x) as U.
  rewrite inject_Z_plus in U. change (inject_Z 1) with 1 in U.
  split; lra.
Qed.

Lemma round_half_even_Z z : round_half_even (inject_Z z) = z.
Proof.
  unfold round_half_even. rewrite Qfloor_Z.
  assert (C : Qcompare (inject_Z z - inject_Z z) (1 # 2) = Lt).
  { apply (proj1 (Qlt_alt _ _)). lra. }
  now rewrite C.
Qed.

Lemma round_half_even_near x :
  x - (1 # 2) <= inject_Z (round_half_even x) /\
  inject_Z (round_half_even x) <= x + (1 # 2).
Proof.
  pose proof (floor_frac_bounds x) as [L U].
  destruct (round_half_even_cases x) as [[H ->]|[[H ->]|[H [-> | ->]]]];
    rewrite ?inject_Z_plus; change (inject_Z 1) with 1; split; lra.
Qed.

Lemma round_half_even_mono x y :
  x <= y -> (round_half_even x <= round_half_even y)%Z.
Proof.
  intro Lxy.
  pose proof (Qfloor_resp_le _ _ Lxy) as F.
  pose proof (floor_frac_bounds x) as [Lx Ux].
  pose proof (floor_frac_bounds y) as [Ly Uy].
  destruct (Z.eq_dec (Qfloor x) (Qfloor y)) as [E|N].
  - unfold round_half_even. rewrite <- E.
    destruct (Qcompare_spec (x - inject_Z (Qfloor x)) (1 # 2));
      destruct (Qcompare_spec (y - inject_Z (Qfloor x)) (1 # 2));
      try (destruct (Z.even (Qfloor x))); try lia; exfalso; lra.
  - assert (S : (Qfloor x + 1 <= Qfloor y)%Z) by lia.
    assert (A : (round_half_even x <= Qfloor x + 1)%Z).
    { destruct (round_half_even_cases x) as [[_ ->]|[[_ ->]|[_ [-> | ->]]]]; lia. }
    assert (B : (Qfloor y <= round_half_even y)%Z).
    { destruct (round_half_even_cases y) as [[_ ->]|[[_ ->]|[_ [-> | ->]]]]; lia. }
    lia.
Qed.

(** *** Rounding to [n] decimals *)

#[export] Instance round_proper n : Proper (Qeq ==> Qeq) (fun x => round x n).
Proof. intros x y E. unfold round. now rewrite E. Qed.

Lemma round_compat x y n : x == y -> round x n == round y n.
Proof. apply round_proper. Qed.

Lemma round_mono x y n : x <= y -> round x n <= round y n.
Proof.
  intro L. unfold round.
  pose proof (pow10_pos n) as P.
  apply Qmult_le_compat_r.
  - rewrite <- Zle_Qle. apply round_half_even_mono.
    apply Qmult_le_compat_r; [assumption|lra].
  - apply Qlt_le_weak, Qinv_lt_0_compat, P.
Qed.

Lemma round_decimals x n : decimals n (round x n).
Proof. exists (round_half_even (x * pow10 n)). reflexivity. Qed.

Lemma round_fixed x n : decimals n x -> round x n == x.
Proof.
  intros [z E]. unfold round.
  assert (S : x * pow10 n == inject_Z z).
  { rewrite E. field. apply pow10_neq. }
  rewrite S, round_half_even_Z. now rewrite E.
Qed.

Lemma round_idempotent x n : round (round x n) n == round x n.
Proof. apply round_fixed, round_decimals. Qed.

Lemma decimals_Z n z : decimals n (inject_Z z).
Proof.
  exists (z * 10 ^ Z.of_nat n)%Z. rewrite inject_Z_mult. fold (pow10 n).
  field. apply pow10_neq.
Qed.

Lemma decimals_compat n x y : x == y -> decimals n x -> decimals n y.
Proof. intros E [z H]. exists z. now rewrite <- E. Qed.



Lemma round_Z z n : round (inject_Z z) n == inject_Z z.
Proof. apply round_fixed, decimals_Z. Qed.

Lemma round_nonneg x n : 0 <= x -> 0 <= round x n.
Proof.
  intro H. rewrite <- (round_Z 0 n). now apply round_mono.
Qed.

Lemma round_le_Z x z n : x <= inject_Z z -> round x n <= inject_Z z.
Proof. intro H. rewrite <- (round_Z z n). now apply round_mono. Qed.

Lemma round_ge_Z x z n : inject_Z z <= x -> inject_Z z <= round x n.
Proof. intro H. rewrite <- (round_Z z n). now apply round_mono. Qed.


(** ** Dictionaries *)

Section DictFacts.
Context {K V : Type}.
Variable eqb : K -> K -> bool.
Hypothesis eqb_eq : forall a b, eqb a b = true <-> a = b.

Lemma eqb_refl k : eqb k k = true.
Proof. now apply eqb_eq. Qed.

Lemma eqb_neq a b : a <> b -> eqb a b = false.
Proof.
  intro N. destruct (eqb a b) eqn:E; [|reflexivity].
  apply eqb_eq in E. contradiction.
Qed.

Lemma get_update_same (d : list (K * V)) k dflt f :
  Dict.get eqb (Dict.update eqb d k dflt f) k = Some (f (Dict.get_default eqb d k dflt)).
Proof.
  unfold Dict.get_default.
  induction d as [|[k' v] d IH]; simpl.
  - now rewrite eqb_refl.
  - destruct (eqb k k') eqn:E; simpl; rewrite E; auto.
Qed.

Lemma get_update_other (d : list (K * V)) k k' dflt f :
  k' <> k -> Dict.get eqb (Dict.update eqb d k dflt f) k' = Dict.get eqb d k'.
Proof.
  intro N. induction d as [|[k0 v] d IH]; simpl.
  - now rewrite (eqb_neq _ _ N).
  - destruct (eqb k k0) eqn:E; simpl.
    + apply eqb_eq in E. subst k0. now rewrite (eqb_neq _ _ N).
    + now rewrite IH.
Qed.

Lemma get_Some_In (d : list (K * V)) k v :
  Dict.get eqb d k = Some v -> In (k, v) d.
Proof.
  induction d as [|[k' v'] d IH]; simpl; [discriminate|].
  destruct (eqb k k') eqn:E.
  - apply eqb_eq in E. intros [= ->]. subst. now left.
  - auto.
Qed.

Lemma get_None_keys (d : list (K * V)) k :
  Dict.get eqb d k = None <-> ~ In k (Dict.keys d).
Proof.
  induction d as [|[k' v'] d IH]; simpl; [tauto|].
  destruct (eqb k k') eqn:E.
  - apply eqb_eq in E. subst. split; [discriminate|]. intro H. tauto.
  - rewrite IH. split; [|tauto].
    intros H [A|A]; [|tauto]. subst. rewrite eqb_refl in E. discriminate.
Qed.

Lemma mem_keys (d : list (K * V)) k : Dict.mem eqb d k = true <-> In k (Dict.keys d).
Proof.
  unfold Dict.mem. destruct (Dict.get eqb d k) eqn:G.
  - split; [intros _|reflexivity].
    apply get_Some_In in G. apply (in_map fst) in G. exact G.
  - split; [discriminate|]. intro H. now apply get_None_keys in G.
Qed.

Lemma In_get (d : list (K * V)) k v :
  NoDup (Dict.keys d) -> In (k, v) d -> Dict.get eqb d k = Some v.
Proof.
  induction d as [|[k' v'] d IH]; simpl; [tauto|].
  intros ND [E|H]; inversion ND as [|? ? N ND']; subst.
  - inversion E; subst. now rewrite eqb_refl.
  - rewrite eqb_neq; [auto|].
    intros ->. apply N. apply (in_map fst) in H. exact H.
Qed.

Lemma keys_update (d : list (K * V)) k dflt f :
  Dict.keys (Dict.update eqb d k dflt f)
  = if Dict.mem eqb d k then Dict.keys d else Dict.keys d ++ [k].
Proof.
  unfold Dict.mem. induction d as [|[k' v'] d IH]; simpl; [reflexivity|].
  destruct (eqb k k') eqn:E; simpl; [reflexivity|].
  rewrite IH. now destruct (Dict.get eqb d k).
Qed.

Lemma In_keys_update (d : list (K * V)) k dflt f x :
  In x (Dict.keys (Dict.update eqb d k dflt f)) <-> x = k \/ In x (Dict.keys d).
Proof.
  rewrite keys_update. destruct (Dict.mem eqb d k) eqn:M.
  - apply mem_keys in M. split; [tauto|]. intros [->|H]; assumption.
  - rewrite in_app_iff. simpl. split; intros H; intuition auto.
Qed.

Lemma NoDup_keys_update (d : list (K * V)) k dflt f :
  NoDup (Dict.keys d) -> NoDup (Dict.keys (Dict.update eqb d k dflt f)).
Proof.
  intro ND. rewrite keys_update. destruct (Dict.mem eqb d k) eqn:M; [assumption|].
  assert (N : ~ In k (Dict.keys d)).
  { intro H. apply mem_keys in H. congruence. }
  clear M. induction (Dict.keys d) as [|a l IH]; simpl.
  - constructor; [auto|constructor].
  - inversion ND; subst. constructor.
    + rewrite in_app_iff. simpl in *. intuition auto.
    + apply IH; [assumption|]. simpl in N. tauto.
Qed.
Lemma In_keys_get (d : list (K * V)) k :
  In k (Dict.keys d) <-> Dict.get eqb d k <> None.
Proof.
  rewrite <- mem_keys. unfold Dict.mem.
  destruct (Dict.get eqb d k); split; congruence.
Qed.
End DictFacts.


(** ** Sorting *)

Section SortFacts.
Context {A : Type}.
Variable before : A -> A -> bool.

Lemma insert_perm x l : Permutation (PySort.insert before x l) (x :: l).
Proof.
  induction l as [|y l IH]; simpl; [reflexivity|].
  destruct (before y x); [|reflexivity].
  rewrite IH. apply perm_swap.
Qed.

Lemma sort_perm l : Permutation (PySort.sort before l) l.
Proof.
  induction l as [|x l IH]; simpl; [constructor|].
  rewrite insert_perm. now constructor.
Qed.

Lemma sort_In l x : In x (PySort.sort before l) <-> In x l.
Proof.
  split; apply Permutation_in; [apply sort_perm|].
  symmetry. apply sort_perm.
Qed.
End SortFacts.

Lemma string_eqb_eq (a b : string) : String.eqb a b = true <-> a = b.
Proof. apply String.eqb_eq. Qed.

Lemma Z_eqb_eq (a b : Z) : Z.eqb a b = true <-> a = b.
Proof. apply Z.eqb_eq. Qed.



(** ** Flash-loan detection *)

Import FlashTotals.


Lemma wf_block_wallet_nil : wf_block_wallet [].
Proof. split; [constructor|]. discriminate. Qed.

Lemma wf_touch bw b w f :
  wf_block_wallet bw -> wf_block_wallet (FlashLoan.touch bw b w f).
Proof.
  intros [ND IN]. unfold FlashLoan.touch. split.
  - now apply (NoDup_keys_update Z.eqb Z_eqb_eq).
  - intros b' ws G.
    destruct (Z.eq_dec b' b) as [->|N].
    + rewrite (get_update_same Z.eqb Z_eqb_eq) in G. injection G as <-.
      apply (NoDup_keys_update String.eqb string_eqb_eq).
      unfold Dict.get_default. destruct (Dict.get Z.eqb bw b) eqn:G.
      * eauto.
      * constructor.
    + rewrite (get_update_other Z.eqb Z_eqb_eq) in G by assumption. eauto.
Qed.

Lemma wf_group_step bw tx :
  wf_block_wallet bw -> wf_block_wallet (FlashLoan.group_step bw tx).
Proof.
  intro W. unfold FlashLoan.group_step.
  destruct (Transaction.receiver tx); auto using wf_touch.
Qed.

Lemma wf_fold_group txs : forall bw,
  wf_block_wallet bw -> wf_block_wallet (fold_left FlashLoan.group_step txs bw).
Proof.
  induction txs as [|tx txs IH]; simpl; auto using wf_group_step.
Qed.

Lemma wf_group txs : wf_block_wallet (FlashLoan.group txs).
Proof. apply wf_fold_group, wf_block_wallet_nil. Qed.


Lemma flows_at_touch_same bw b w f :
  flows_at (FlashLoan.touch bw b w f) b w
  = Some (f (flows_or_new (flows_at bw b w))).
Proof.
  unfold flows_at, FlashLoan.touch.
  rewrite (get_update_same Z.eqb Z_eqb_eq).
  rewrite (get_update_same String.eqb string_eqb_eq).
  unfold Dict.get_default.
  destruct (Dict.get Z.eqb bw b); reflexivity.
Qed.

Lemma flows_at_touch_other bw b w f b' w' :
  b' <> b \/ w' <> w ->
  flows_at (FlashLoan.touch bw b w f) b' w' = flows_at bw b' w'.
Proof.
  intro N. unfold flows_at, FlashLoan.touch.
  destruct (Z.eq_dec b' b) as [->|Nb].
  - destruct N as [N|N]; [contradiction|].
    rewrite (get_update_same Z.eqb Z_eqb_eq).
    rewrite (get_update_other String.eqb string_eqb_eq) by assumption.
    unfold Dict.get_default. destruct (Dict.get Z.eqb bw b); reflexivity.
  - now rewrite (get_update_other Z.eqb Z_eqb_eq).
Qed.


Lemma flows_at_touch bw b w f b' w' :
  flows_at (FlashLoan.touch bw b w f) b' w'
  = if Z.eqb b b' && String.eqb w w'
    then Some (f (flows_or_new (flows_at bw b' w')))
    else flows_at bw b' w'.
Proof.
  destruct (Z.eqb_spec b b') as [->|Nb]; simpl.
  - destruct (String.eqb_spec w w') as [->|Nw].
    + apply flows_at_touch_same.
    + apply flows_at_touch_other. right. congruence.
  - apply flows_at_touch_other. left. congruence.
Qed.

Lemma flows_at_group_step bw tx b w :
  flows_at (FlashLoan.group_step bw tx) b w = flow_step b w (flows_at bw b w) tx.
Proof.
  unfold FlashLoan.group_step, flow_step, receives, in_block.
  destruct (Transaction.receiver tx) as [r|].
  - rewrite !flows_at_touch.
    destruct (Transaction.block_number tx =? b)%Z; simpl; [|reflexivity].
    destruct (String.eqb r w); reflexivity.
  - rewrite flows_at_touch. rewrite andb_false_r. reflexivity.
Qed.

Lemma flows_at_fold txs b w : forall bw,
  flows_at (fold_left FlashLoan.group_step txs bw) b w
  = fold_left (flow_step b w) txs (flows_at bw b w).
Proof.
  induction txs as [|tx txs IH]; simpl; [reflexivity|].
  intro bw. now rewrite IH, flows_at_group_step.
Qed.






(** A pair has an entry exactly when the wallet takes part in the block. *)
Lemma fold_flow_entry b w txs : forall o,
  fold_left (flow_step b w) txs o <> None <->
  o <> None \/ participates txs b w = true.
Proof.
  induction txs as [|tx txs IH]; simpl; intro o.
  - split; [auto|]. intros [H|H]; [assumption|discriminate].
  - rewrite IH. unfold flow_step.
    destruct (in_block tx b); simpl.
    + destruct (String.eqb (Transaction.from_address tx) w); simpl;
        destruct (receives tx w); simpl; split; intros [H|H]; auto;
        try (left; discriminate).
    + tauto.
Qed.

Lemma group_entry txs b w :
  flows_at (FlashLoan.group txs) b w <> None <-> participates txs b w = true.
Proof.
  unfold FlashLoan.group. rewrite flows_at_fold.
  change (flows_at [] b w) with (@None FlashLoan.Flows).
  rewrite fold_flow_entry. split; [|auto]. intros [H|H]; [congruence|assumption].
Qed.


Lemma scan_In self bw s :
  In s (FlashLoan.scan self bw) <->
  exists b wallets w fl,
    In (b, wallets) bw /\ In (w, fl) wallets /\
    In s (FlashLoan.examine self b w fl).
Proof.
  unfold FlashLoan.scan. rewrite in_flat_map. split.
  - intros [[b ws] [I H]]. apply in_flat_map in H. destruct H as [[w fl] [I' H]].
    exists b, ws, w, fl. auto.
  - intros (b & ws & w & fl & I & I' & H). exists (b, ws). split; [assumption|].
    apply in_flat_map. exists (w, fl). auto.
Qed.

Lemma wf_In_flows_at bw b wallets w fl :
  wf_block_wallet bw ->
  In (b, wallets) bw -> In (w, fl) wallets -> flows_at bw b w = Some fl.
Proof.
  intros [ND IN] I I'. unfold flows_at.
  rewrite (In_get Z.eqb Z_eqb_eq _ _ _ ND I).
  apply (In_get String.eqb string_eqb_eq); [|assumption].
  apply (IN b). apply (In_get Z.eqb Z_eqb_eq); assumption.
Qed.

Lemma flows_at_In bw b w fl :
  flows_at bw b w = Some fl ->
  exists wallets, In (b, wallets) bw /\ In (w, fl) wallets.
Proof.
  unfold flows_at. destruct (Dict.get Z.eqb bw b) as [ws|] eqn:G; [|discriminate].
  intro G'. exists ws. split.
  - now apply (get_Some_In Z.eqb Z_eqb_eq).
  - now apply (get_Some_In String.eqb string_eqb_eq).
Qed.

Lemma examine_In self b w fl s :
  In s (FlashLoan.examine self b w fl) <->
  FlashLoan.min_value_eth self <= FlashLoan.inflow fl /\
  FlashLoan.min_value_eth self <= FlashLoan.outflow fl /\
  FlashLoan.diff_ratio (FlashLoan.inflow fl) (FlashLoan.outflow fl)
    <= FlashLoan.value_tolerance self /\
  s = FlashLoan.mkSuspect w b
        (round (FlashLoan.inflow fl) 6) (round (FlashLoan.outflow fl) 6)
        (round (FlashLoan.diff_ratio (FlashLoan.inflow fl) (FlashLoan.outflow fl) * 100) 2)
        (round ((1 - FlashLoan.diff_ratio (FlashLoan.inflow fl) (FlashLoan.outflow fl)) * 100) 2).
Proof.
  unfold FlashLoan.examine.
  destruct (ltb (FlashLoan.inflow fl) (FlashLoan.min_value_eth self)) eqn:Li; simpl.
  - apply ltb_true in Li. split; [tauto|]. intros (A & _). exfalso.
    apply (Qlt_not_le _ _ Li A).
  - apply ltb_false in Li.
    destruct (ltb (FlashLoan.outflow fl) (FlashLoan.min_value_eth self)) eqn:Lo; simpl.
    + apply ltb_true in Lo. split; [tauto|]. intros (_ & A & _). exfalso.
      apply (Qlt_not_le _ _ Lo A).
    + apply ltb_false in Lo.
      destruct (leb _ (FlashLoan.value_tolerance self)) eqn:Ld; simpl.
      * apply leb_true in Ld. split.
        -- intros [<-|[]]. auto.
        -- intros (_ & _ & _ & ->). now left.
      * split; [tauto|]. intros (_ & _ & A & _).
        apply leb_true in A. congruence.
Qed.

Lemma detect_In self db s :
  In s (FlashLoan.detect self db) <->
  exists fl,
    flows_at (FlashLoan.group
                (order_by_Z Transaction.block_number (transactions db)))
      (FlashLoan.block_number s) (FlashLoan.wallet s) = Some fl /\
    In s (FlashLoan.examine self (FlashLoan.block_number s) (FlashLoan.wallet s) fl).
Proof.
  unfold FlashLoan.detect, FlashLoan.by_score_desc.
  rewrite sort_In, scan_In. split.
  - intros (b & ws & w & fl & I & I' & H).
    pose proof H as H'. apply examine_In in H'. destruct H' as (_ & _ & _ & ->).
    simpl. exists fl. split; [|assumption].
    eapply wf_In_flows_at; eauto using wf_group.
  - intros (fl & G & H). apply flows_at_In in G. destruct G as (ws & I & I').
    eauto 8.
Qed.

(** Bounds of the relative difference of two amounts of at least [m > 0]. *)
Lemma diff_ratio_formula i o :
  0 < max i o ->
  FlashLoan.diff_ratio i o = (max i o - min i o) / max i o.
Proof.
  intro P. unfold FlashLoan.diff_ratio.
  apply gtb_true in P. now rewrite P.
Qed.

Lemma diff_ratio_bounds i o :
  0 < i -> 0 < o ->
  0 <= FlashLoan.diff_ratio i o /\ FlashLoan.diff_ratio i o < 1.
Proof.
  intros Pi Po.
  assert (Pm : 0 < max i o).
  { destruct (max_spec i o) as [[_ ->]|[_ ->]]; assumption. }
  rewrite diff_ratio_formula by assumption.
  assert (Pn : 0 < min i o).
  { destruct (min_spec i o) as [[_ ->]|[_ ->]]; assumption. }
  assert (L : min i o <= max i o).
  { destruct (min_spec i o) as [[A ->]|[A ->]], (max_spec i o) as [[B ->]|[B ->]];
      lra. }
  split.
  - apply Qle_shift_div_l; [assumption|]. lra.
  - apply Qlt_shift_div_r; [assumption|]. lra.
Qed.









(** ** Sets *)

Section SetFacts.
Context {A : Type}.
Variable eqb : A -> A -> bool.
Hypothesis eqb_eq : forall a b, eqb a b = true <-> a = b.

Lemma contains_In s x : PySet.contains eqb s x = true <-> In x s.
Proof.
  unfold PySet.contains. rewrite existsb_exists. split.
  - intros (y & I & E). apply eqb_eq in E. now subst.
  - intro I. exists x. split; [assumption|]. now apply eqb_eq.
Qed.

Lemma set_add_In s x y : In y (PySet.add eqb s x) <-> y = x \/ In y s.
Proof.
  unfold PySet.add. destruct (PySet.contains eqb s x) eqn:C.
  - apply contains_In in C. split; [auto|]. intros [->|H]; assumption.
  - rewrite in_app_iff. simpl. intuition auto.
Qed.

Lemma set_add_NoDup s x : NoDup s -> NoDup (PySet.add eqb s x).
Proof.
  intro ND. unfold PySet.add. destruct (PySet.contains eqb s x) eqn:C;
    [assumption|].
  assert (N : ~ In x s).
  { intro I. apply contains_In in I. congruence. }
  clear C. induction s as [|a s IH]; simpl.
  - constructor; [auto|constructor].
  - inversion ND; subst. constructor.
    + rewrite in_app_iff. simpl in *. intuition auto.
    + apply IH; [assumption|]. simpl in N. tauto.
Qed.

Lemma set_fold_In l : forall s y,
  In y (fold_left (PySet.add eqb) l s) <-> In y s \/ In y l.
Proof.
  induction l as [|x l IH]; simpl; intros s y; [tauto|].
  rewrite IH, set_add_In. intuition auto.
Qed.

Lemma set_fold_NoDup l : forall s,
  NoDup s -> NoDup (fold_left (PySet.add eqb) l s).
Proof.
  induction l as [|x l IH]; simpl; intros s ND; [assumption|].
  apply IH. now apply set_add_NoDup.
Qed.

Lemma of_list_In l y : In y (PySet.of_list eqb l) <-> In y l.
Proof. unfold PySet.of_list. rewrite set_fold_In. simpl. tauto. Qed.

Lemma of_list_NoDup l : NoDup (PySet.of_list eqb l).
Proof. apply set_fold_NoDup. constructor. Qed.



Lemma nodupb_NoDup (l : list A) : nodupb eqb l = true <-> NoDup l.
Proof.
  induction l as [|x l IH]; simpl.
  - split; [constructor|reflexivity].
  - rewrite andb_true_iff, negb_true_iff, IH. split.
    + intros [N ND]. constructor; [|assumption].
      intro I. apply (contains_In l x) in I. unfold PySet.contains in I.
      congruence.
    + intro ND. inversion ND as [|? ? N ND']; subst. split; [|assumption].
      destruct (existsb (eqb x) l) eqn:E; [|reflexivity].
      exfalso. apply N. now apply (contains_In l x).
Qed.
End SetFacts.

Lemma pair_eqb_eq (a b : string * string) :
  GraphAnalysis.pair_eqb a b = true <-> a = b.
Proof.
  destruct a as [a1 a2], b as [b1 b2]. unfold GraphAnalysis.pair_eqb. simpl.
  rewrite andb_true_iff, !String.eqb_eq. split.
  - intros [-> ->]. reflexivity.
  - intros [= -> ->]. auto.
Qed.

(** ** The graph as a data structure *)

Import GraphAnalysis.

Lemma well_formed_spec g :
  well_formed g = true <->
  NoDup (Dict.keys g) /\
  forall u succ, In (u, succ) g -> NoDup (Dict.keys succ).
Proof.
  unfold well_formed.
  rewrite andb_true_iff, (nodupb_NoDup String.eqb string_eqb_eq), forallb_forall.
  split; intros [ND H]; (split; [assumption|]).
  - intros u succ I. apply (nodupb_NoDup String.eqb string_eqb_eq).
    apply (H (u, succ) I).
  - intros [u succ] I. apply (nodupb_NoDup String.eqb string_eqb_eq). eauto.
Qed.

Lemma edges_In g u v d :
  In (u, v, d) (edges g) <-> exists succ, In (u, succ) g /\ In (v, d) succ.
Proof.
  unfold edges. rewrite in_flat_map. split.
  - intros [[u' succ] [I H]]. apply in_map_iff in H.
    destruct H as [[v' d'] [[= -> -> ->] I']]. eauto.
  - intros (succ & I & I'). exists (u, succ). split; [assumption|].
    apply in_map_iff. exists (v, d). auto.
Qed.

Lemma wf_adj g u succ :
  well_formed g = true -> In (u, succ) g -> adj g u = succ.
Proof.
  intros W I. apply well_formed_spec in W. destruct W as [ND _].
  unfold adj, Dict.get_default.
  now rewrite (In_get String.eqb string_eqb_eq _ _ _ ND I).
Qed.

Lemma wf_edges_edge_data g u v d :
  well_formed g = true ->
  (In (u, v, d) (edges g) <-> edge_data g u v = Some d).
Proof.
  intro W. pose proof W as W'. apply well_formed_spec in W'.
  destruct W' as [ND NS]. rewrite edges_In. unfold edge_data. split.
  - intros (succ & I & I'). rewrite (wf_adj _ _ _ W I).
    apply (In_get String.eqb string_eqb_eq); eauto.
  - intro G. unfold adj, Dict.get_default in G.
    destruct (Dict.get String.eqb g u) as [succ|] eqn:Gu; [|discriminate].
    exists succ. split.
    + now apply (get_Some_In String.eqb string_eqb_eq).
    + now apply (get_Some_In String.eqb string_eqb_eq).
Qed.

Lemma has_edge_true g u v :
  has_edge g u v = true <-> exists d, edge_data g u v = Some d.
Proof.
  unfold has_edge. destruct (edge_data g u v) as [d|].
  - split; eauto.
  - split; [discriminate|]. intros [d H]. discriminate.
Qed.


(** ** Wash-trade detection *)

Lemma similarity_qualifies a b :
  8 # 10 < similarity a b ->
  0 < max a b /\ similarity a b = min a b / max a b /\ similarity a b <= 1.
Proof.
  unfold similarity. destruct (gtb (max a b) 0) eqn:G.
  - apply gtb_true in G. intros _. split; [assumption|]. split; [reflexivity|].
    apply Qle_shift_div_r; [assumption|].
    destruct (min_spec a b) as [[A ->]|[A ->]], (max_spec a b) as [[B ->]|[B ->]];
      lra.
  - intro H. exfalso. lra.
Qed.

Lemma examine_edge_In g u v data_uv p :
  In p (examine_edge g (u, v, data_uv)) <->
  exists data_vu,
    edge_data g v u = Some data_vu /\
    8 # 10 < similarity (weight data_uv) (weight data_vu) /\
    p = mkPair u v (round (weight data_uv) 6) (round (weight data_vu) 6)
          (round (similarity (weight data_uv) (weight data_vu)) 4)
          (count data_uv) (count data_vu)
          (round (raw_suspicion (similarity (weight data_uv) (weight data_vu))
                    (count data_uv) (count data_vu)) 2).
Proof.
  unfold examine_edge, has_edge.
  destruct (edge_data g v u) as [data_vu|].
  2:{ split; [intros []|]. intros (d & E & _). discriminate. }
  set (a := weight data_uv). set (b := weight data_vu).
  destruct (eqb a 0 && eqb b 0) eqn:Z.
  - split; [intros []|]. intros (d & [= <-] & S & _). exfalso.
    apply andb_true_iff in Z. destruct Z as [Za Zb].
    apply Qeq_bool_iff in Za, Zb. fold b in S.
    apply similarity_qualifies in S. destruct S as (P & _).
    destruct (max_spec a b) as [[_ E]|[_ E]]; rewrite E in P; lra.
  - destruct (gtb (similarity a b) (8 # 10)) eqn:S.
    + apply gtb_true in S. split.
      * intros [<-|[]]. exists data_vu. auto.
      * intros (d & [= <-] & _ & ->). now left.
    + apply gtb_false in S. split; [intros []|].
      intros (d & [= <-] & S' & _). fold b in S'. exfalso. lra.
Qed.

Lemma suspicious_pairs_In g p :
  In p (suspicious_pairs g) <->
  exists u v data_uv, In (u, v, data_uv) (edges g) /\
                      In p (examine_edge g (u, v, data_uv)).
Proof.
  unfold suspicious_pairs. rewrite in_flat_map. split.
  - intros [[[u v] d] [I H]]. eauto.
  - intros (u & v & d & I & H). exists (u, v, d). auto.
Qed.

(** The deduplication loop keeps the first pair of every key. *)
Lemma dedup_invariant pairs : forall seen uniq,
  (forall k, In k seen <-> In k (map pair_key uniq)) ->
  NoDup (map pair_key uniq) ->
  let r := snd (fold_left dedup_step pairs (seen, uniq)) in
  NoDup (map pair_key r) /\
  (forall p, In p r <-> In p uniq \/
                        (In p pairs /\ In p r /\ ~ In (pair_key p) (map pair_key uniq))) /\
  (forall p, In p pairs -> In (pair_key p) (map pair_key r)) /\
  (forall p, In p uniq -> In p r).
Proof.
  induction pairs as [|q pairs IH]; intros seen uniq S ND; simpl.
  - repeat split; try tauto; auto.
  - destruct (PySet.contains pair_eqb seen (pair_key q)) eqn:C.
    + apply (contains_In pair_eqb pair_eqb_eq) in C.
      destruct (IH seen uniq S ND) as (A & B & D & E).
      repeat split; try assumption.
      * intro H. apply B in H. tauto.
      * intros [H|(H & H' & H'')]; [now apply E|assumption].
      * intros p [<-|I]; [|now apply D].
        apply S in C. apply in_map_iff in C. destruct C as (x & Ex & Ix).
        rewrite <- Ex. apply in_map. now apply E.
    + assert (N : ~ In (pair_key q) (map pair_key uniq)).
      { intro I. apply S in I. apply (contains_In pair_eqb pair_eqb_eq) in I.
        congruence. }
      assert (S' : forall k, In k (PySet.add pair_eqb seen (pair_key q)) <->
                             In k (map pair_key (uniq ++ [q]))).
      { intro k. rewrite (set_add_In pair_eqb pair_eqb_eq), map_app, in_app_iff.
        simpl. rewrite S. intuition auto. }
      assert (ND' : NoDup (map pair_key (uniq ++ [q]))).
      { rewrite map_app. simpl. apply NoDup_app_remove_l with (l := []).
        simpl. apply Permutation_NoDup with (l := pair_key q :: map pair_key uniq).
        - rewrite Permutation_app_comm. reflexivity.
        - now constructor. }
      destruct (IH _ _ S' ND') as (A & B & D & E).
      repeat split; try assumption.
      * intro H. pose proof H as H0. apply B in H.
        destruct H as [H|(H & H' & H'')].
        -- apply in_app_iff in H. simpl in H. destruct H as [H|[<-|[]]]; auto.
        -- right. repeat split; auto. intro I. apply H''.
           rewrite map_app, in_app_iff. auto.
      * intros [H|(H & H' & H'')]; [|assumption].
        apply E. apply in_app_iff. auto.
      * intros p [<-|I]; [|now apply D].
        apply in_map. apply E. apply in_app_iff. simpl. auto.
      * intros p I. apply E. apply in_app_iff. auto.
Qed.

Lemma deduplicate_spec pairs :
  NoDup (map pair_key (deduplicate pairs)) /\
  (forall p, In p (deduplicate pairs) -> In p pairs) /\
  (forall p, In p pairs -> In (pair_key p) (map pair_key (deduplicate pairs))).
Proof.
  unfold deduplicate.
  destruct (dedup_invariant pairs [] []) as (A & B & D & _).
  - simpl. tauto.
  - constructor.
  - split; [assumption|]. split; [|assumption].
    intros p I. apply B in I. simpl in I. tauto.
Qed.

Lemma detect_wash_trading_perm g :
  Permutation (detect_wash_trading g) (deduplicate (suspicious_pairs g)).
Proof. apply sort_perm. Qed.


Lemma sorted_pair_cases a b :
  sorted_pair a b = (a, b) \/ sorted_pair a b = (b, a).
Proof. unfold sorted_pair. destruct (String.ltb b a); auto. Qed.


Lemma detect_wash_trading_In g p :
  well_formed g = true ->
  In p (detect_wash_trading g) ->
  exists data_uv data_vu,
    edge_data g (wallet_a p) (wallet_b p) = Some data_uv /\
    edge_data g (wallet_b p) (wallet_a p) = Some data_vu /\
    In p (examine_edge g (wallet_a p, wallet_b p, data_uv)).
Proof.
  intros W I.
  apply (Permutation_in _ (detect_wash_trading_perm g)) in I.
  apply (proj1 (proj2 (deduplicate_spec _))) in I.
  apply suspicious_pairs_In in I.
  destruct I as (u & v & d & I & E).
  pose proof E as E'. apply examine_edge_In in E'.
  destruct E' as (d' & G & _ & ->). simpl.
  exists d, d'. split; [|auto]. now apply wf_edges_edge_data.
Qed.

Lemma detect_wash_trading_complete g u v data_uv data_vu :
  well_formed g = true ->
  edge_data g u v = Some data_uv -> edge_data g v u = Some data_vu ->
  8 # 10 < similarity (weight data_uv) (weight data_vu) ->
  exists p, In p (detect_wash_trading g) /\ pair_key p = sorted_pair u v.
Proof.
  intros W Guv Gvu S.
  set (p := mkPair u v (round (weight data_uv) 6) (round (weight data_vu) 6)
          (round (similarity (weight data_uv) (weight data_vu)) 4)
          (count data_uv) (count data_vu)
          (round (raw_suspicion (similarity (weight data_uv) (weight data_vu))
                    (count data_uv) (count data_vu)) 2)).
  assert (I : In p (suspicious_pairs g)).
  { apply suspicious_pairs_In. exists u, v, data_uv. split.
    - now apply wf_edges_edge_data.
    - apply examine_edge_In. exists data_vu. auto. }
  apply (proj2 (proj2 (deduplicate_spec _))) in I. apply in_map_iff in I.
  destruct I as (q & Eq & Iq). exists q. split.
  - apply (Permutation_in _ (Permutation_sym (detect_wash_trading_perm g))).
    assumption.
  - rewrite Eq. reflexivity.
Qed.





(** ** Building the graph *)

Import EdgeTotals.

Lemma sends_spec u v tx :
  sends u v tx = true <->
  Transaction.from_address tx = u /\ Transaction.receiver tx = Some v.
Proof.
  unfold sends, receives. rewrite andb_true_iff, String.eqb_eq.
  destruct (Transaction.receiver tx) as [r|].
  - rewrite String.eqb_eq. split; intros [A B]; split; congruence.
  - split; intros [A B]; discriminate.
Qed.

Lemma get_aggregate_step ed tx u v :
  Dict.get pair_eqb (aggregate_step ed tx) (u, v)
  = acc_step u v (Dict.get pair_eqb ed (u, v)) tx.
Proof.
  unfold aggregate_step, acc_step.
  destruct (sends u v tx) eqn:S.
  - apply sends_spec in S. destruct S as [<- ->].
    now rewrite (get_update_same pair_eqb pair_eqb_eq).
  - destruct (Transaction.receiver tx) as [r|] eqn:R; [|reflexivity].
    apply (get_update_other pair_eqb pair_eqb_eq).
    intros [= -> ->].
    assert (T : sends (Transaction.from_address tx) r tx = true)
      by now apply sends_spec.
    congruence.
Qed.

Lemma get_fold_aggregate txs u v : forall ed,
  Dict.get pair_eqb (fold_left aggregate_step txs ed) (u, v)
  = fold_left (acc_step u v) txs (Dict.get pair_eqb ed (u, v)).
Proof.
  induction txs as [|tx txs IH]; simpl; [reflexivity|].
  intro ed. now rewrite IH, get_aggregate_step.
Qed.

Lemma aggregate_NoDup txs : NoDup (Dict.keys (aggregate txs)).
Proof.
  unfold aggregate.
  assert (H : forall ed, NoDup (Dict.keys ed) ->
                         NoDup (Dict.keys (fold_left aggregate_step txs ed))).
  { induction txs as [|tx txs IH]; simpl; [auto|].
    intros ed ND. apply IH. unfold aggregate_step.
    destruct (Transaction.receiver tx); [|assumption].
    now apply (NoDup_keys_update pair_eqb pair_eqb_eq). }
  apply H. constructor.
Qed.

Lemma fold_acc_weight u v txs : forall o,
  acc_weight (acc_or_new (fold_left (acc_step u v) txs o))
  = fold_left (fun s tx => if sends u v tx then s + Transaction.value_eth tx else s)
      txs (acc_weight (acc_or_new o)).
Proof.
  induction txs as [|tx txs IH]; simpl; [reflexivity|].
  intro o. rewrite IH. unfold acc_step. now destruct (sends u v tx).
Qed.

Lemma fold_acc_count u v txs : forall o,
  acc_count (acc_or_new (fold_left (acc_step u v) txs o))
  = (acc_count (acc_or_new o) + Z.of_nat (length (filter (sends u v) txs)))%Z.
Proof.
  induction txs as [|tx txs IH]; simpl; [intro; lia|].
  intro o. rewrite IH. unfold acc_step. destruct (sends u v tx); simpl; lia.
Qed.

Lemma fold_acc_blocks u v txs : forall o,
  acc_blocks (acc_or_new (fold_left (acc_step u v) txs o))
  = fold_left (PySet.add Z.eqb)
      (map Transaction.block_number (filter (sends u v) txs))
      (acc_blocks (acc_or_new o)).
Proof.
  induction txs as [|tx txs IH]; simpl; [reflexivity|].
  intro o. rewrite IH. unfold acc_step. now destruct (sends u v tx).
Qed.

Lemma fold_acc_entry u v txs : forall o,
  fold_left (acc_step u v) txs o <> None <->
  o <> None \/ existsb (sends u v) txs = true.
Proof.
  induction txs as [|tx txs IH]; simpl; intro o.
  - split; [auto|]. intros [H|H]; [assumption|discriminate].
  - rewrite IH. unfold acc_step. destruct (sends u v tx); simpl.
    + split; [auto|]. intros _. left. discriminate.
    + tauto.
Qed.

Lemma aggregate_get txs u v :
  Dict.get pair_eqb (aggregate txs) (u, v) = fold_left (acc_step u v) txs None.
Proof. unfold aggregate. now rewrite get_fold_aggregate. Qed.

Lemma aggregate_keys txs u v :
  In (u, v) (Dict.keys (aggregate txs)) <->
  exists tx, In tx txs /\ Transaction.from_address tx = u /\
             Transaction.receiver tx = Some v.
Proof.
  transitivity (existsb (sends u v) txs = true).
  - rewrite (In_keys_get pair_eqb pair_eqb_eq), aggregate_get, fold_acc_entry.
    split; [|auto]. intros [H|H]; [congruence|assumption].
  - rewrite existsb_exists. split; intros (tx & I & S); exists tx;
      (split; [assumption|]); now apply sends_spec.
Qed.

(** *** [add_edge] *)

Lemma adj_update g u F u' :
  adj (Dict.update String.eqb g u [] F) u'
  = if String.eqb u' u then F (adj g u) else adj g u'.
Proof.
  unfold adj, Dict.get_default.
  destruct (String.eqb_spec u' u) as [->|N].
  - now rewrite (get_update_same String.eqb string_eqb_eq).
  - now rewrite (get_update_other String.eqb string_eqb_eq).
Qed.

Lemma adj_add_node g n u : adj (add_node g n) u = adj g u.
Proof.
  unfold add_node. rewrite adj_update.
  destruct (String.eqb_spec u n) as [->|N]; reflexivity.
Qed.

Lemma adj_add_edge g u v d u' :
  adj (add_edge g u v d) u'
  = if String.eqb u' u
    then Dict.update String.eqb (adj g u) v d (fun _ => d)
    else adj g u'.
Proof.
  unfold add_edge. rewrite adj_update, !adj_add_node. reflexivity.
Qed.

Lemma edge_data_add_edge g u v d u' v' :
  edge_data (add_edge g u v d) u' v'
  = if String.eqb u' u && String.eqb v' v then Some d else edge_data g u' v'.
Proof.
  unfold edge_data. rewrite adj_add_edge.
  destruct (String.eqb_spec u' u) as [->|Nu]; simpl; [|reflexivity].
  destruct (String.eqb_spec v' v) as [->|Nv].
  - now rewrite (get_update_same String.eqb string_eqb_eq).
  - now rewrite (get_update_other String.eqb string_eqb_eq).
Qed.

Lemma nodes_add_edge g u v d n :
  In n (nodes (add_edge g u v d)) <-> n = u \/ n = v \/ In n (nodes g).
Proof.
  unfold nodes, add_edge, add_node.
  rewrite !(In_keys_update String.eqb string_eqb_eq). tauto.
Qed.

Lemma wf_add_edge g u v d : wf_graph g -> wf_graph (add_edge g u v d).
Proof.
  intros [ND NS]. split.
  - unfold add_edge, add_node.
    repeat apply (NoDup_keys_update String.eqb string_eqb_eq). assumption.
  - intro u'. rewrite adj_add_edge. destruct (String.eqb u' u); [|apply NS].
    apply (NoDup_keys_update String.eqb string_eqb_eq). apply NS.
Qed.

Lemma wf_graph_well_formed g : wf_graph g <-> well_formed g = true.
Proof.
  rewrite well_formed_spec. split; intros [ND NS]; (split; [assumption|]).
  - intros u succ I. specialize (NS u). unfold adj, Dict.get_default in NS.
    now rewrite (In_get String.eqb string_eqb_eq _ _ _ ND I) in NS.
  - intro u. unfold adj, Dict.get_default.
    destruct (Dict.get String.eqb g u) as [succ|] eqn:G; [|constructor].
    apply (get_Some_In String.eqb string_eqb_eq) in G. eauto.
Qed.

(** *** [add_edges] *)

Lemma add_edges_wf accs : forall g, wf_graph g -> wf_graph (add_edges g accs).
Proof.
  unfold add_edges.
  induction accs as [|[[s d] a] accs IH]; simpl; [auto|].
  intros g W. apply IH. now apply wf_add_edge.
Qed.

Lemma add_edges_edge_data accs u v : forall g,
  NoDup (Dict.keys accs) ->
  edge_data (add_edges g accs) u v
  = match Dict.get pair_eqb accs (u, v) with
    | Some a => Some (edge_of_acc a)
    | None => edge_data g u v
    end.
Proof.
  unfold add_edges.
  induction accs as [|[[s d] a] accs IH]; simpl; [reflexivity|].
  intros g ND. inversion ND as [|? ? N ND']; subst.
  rewrite IH by assumption. rewrite edge_data_add_edge.
  unfold pair_eqb at 2. simpl.
  destruct (String.eqb u s && String.eqb v d) eqn:E.
  - apply andb_true_iff in E. destruct E as [Eu Ev].
    apply String.eqb_eq in Eu, Ev. subst.
    assert (G : Dict.get pair_eqb accs (s, d) = None)
      by now apply (get_None_keys pair_eqb pair_eqb_eq).
    now rewrite G.
  - reflexivity.
Qed.

Lemma add_edges_nodes accs n : forall g,
  In n (nodes (add_edges g accs)) <->
  In n (nodes g) \/
  exists u v, In (u, v) (Dict.keys accs) /\ (n = u \/ n = v).
Proof.
  unfold add_edges.
  induction accs as [|[[s d] a] accs IH]; simpl; intro g.
  - split; [auto|]. intros [H|(u & v & [] & _)]. assumption.
  - rewrite IH, nodes_add_edge. split.
    + intros [[->|[->|H]]|(u & v & I & H)]; eauto 7.
    + intros [H|(u & v & [E|I] & H)]; [tauto| |eauto 7].
      injection E as <- <-. tauto.
Qed.

Lemma build_graph_wf db : wf_graph (build_graph db).
Proof.
  apply add_edges_wf. split; [constructor|]. intro u. constructor.
Qed.

Lemma build_graph_well_formed db : well_formed (build_graph db) = true.
Proof. apply wf_graph_well_formed, build_graph_wf. Qed.

Lemma build_graph_edge_data db u v :
  edge_data (build_graph db) u v
  = option_map edge_of_acc (fold_left (acc_step u v) (transactions db) None).
Proof.
  unfold build_graph.
  rewrite add_edges_edge_data by apply aggregate_NoDup.
  rewrite aggregate_get.
  destruct (fold_left (acc_step u v) (transactions db) None); reflexivity.
Qed.

Lemma build_graph_has_edge db u v :
  has_edge (build_graph db) u v = true <->
  exists tx, In tx (transactions db) /\ Transaction.from_address tx = u /\
             Transaction.receiver tx = Some v.
Proof.
  rewrite <- aggregate_keys, (In_keys_get pair_eqb pair_eqb_eq).
  unfold has_edge. rewrite build_graph_edge_data, <- aggregate_get.
  destruct (Dict.get pair_eqb (aggregate (transactions db)) (u, v)); simpl;
    split; congruence.
Qed.

Lemma build_graph_has_node db n :
  has_node (build_graph db) n = true <->
  exists tx r, In tx (transactions db) /\ Transaction.receiver tx = Some r /\
               (n = Transaction.from_address tx \/ n = r).
Proof.
  unfold has_node. rewrite (mem_keys String.eqb string_eqb_eq).
  change (Dict.keys (build_graph db)) with (nodes (build_graph db)).
  unfold build_graph. rewrite add_edges_nodes. simpl. split.
  - intros [[]|(u & v & I & H)]. apply aggregate_keys in I.
    destruct I as (tx & I & <- & R). eauto.
  - intros (tx & r & I & R & H). right.
    exists (Transaction.from_address tx), r. split; [|assumption].
    apply aggregate_keys. eauto.
Qed.


(** C7 as stated fails: the sender of a transaction without recipient is not
    made a node. *)
Lemma build_graph_nodes_counterexample :
  let db := Samples.contract_creation in
  (exists tx, In tx (transactions db) /\
              Transaction.from_address tx = "A"%string) /\
  has_node (build_graph db) "A" = false /\
  nodes (build_graph db) = [].
Proof.
  cbv zeta. split; [|split; reflexivity].
  eexists. split; [left; reflexivity|reflexivity].
Qed.

(** C7 (amended): after [build_graph] the nodes are exactly the senders and
    recipients of the transactions that have a recipient; an edge (u->v)
    exists iff u sent at least one transaction to v, and it carries the
    summed value, the number of these transactions and the number of their
    distinct blocks. *)
Theorem build_graph_contents (db : Session) :
  let g := build_graph db in
  let txs := transactions db in
  (forall n, has_node g n = true <->
     exists tx r, In tx txs /\ Transaction.receiver tx = Some r /\
                  (n = Transaction.from_address tx \/ n = r)) /\
  (forall u v, has_edge g u v = true <->
     exists tx, In tx txs /\ Transaction.from_address tx = u /\
                Transaction.receiver tx = Some v) /\
  (forall u v d, edge_data g u v = Some d ->
     weight d = sent_value txs u v /\
     count d = sent_count txs u v /\
     blocks d = Z.of_nat (length (sent_blocks txs u v))) /\
  (forall u v, NoDup (sent_blocks txs u v) /\
     forall b, In b (sent_blocks txs u v) <->
       exists tx, In tx txs /\ sends u v tx = true /\
                  Transaction.block_number tx = b).
Proof.
  intros g txs.
  split; [apply build_graph_has_node|].
  split; [apply build_graph_has_edge|].
  split.
  - intros u v d G. unfold g in G. rewrite build_graph_edge_data in G.
    fold txs in G.
    pose proof (fold_acc_weight u v txs None) as Hw.
    pose proof (fold_acc_count u v txs None) as Hc.
    pose proof (fold_acc_blocks u v txs None) as Hb.
    destruct (fold_left (acc_step u v) txs None) as [a|]; [|discriminate].
    simpl in G, Hw, Hc, Hb. injection G as <-. simpl.
    rewrite Hw, Hc, Hb. auto.
  - intros u v. split; [apply (of_list_NoDup Z.eqb Z_eqb_eq)|].
    intro b. unfold sent_blocks.
    rewrite (of_list_In Z.eqb Z_eqb_eq), in_map_iff. split.
    + intros (tx & E & I). apply filter_In in I. destruct I. eauto.
    + intros (tx & I & S & E). exists tx. split; [assumption|].
      apply filter_In. auto.
Qed.

(** C10: self-loops are kept by [build_graph], and a self-loop of positive
    weight is reported by [detect_wash_trading] as a pair of the wallet with
    itself, with similarity exactly 1 and score 50 + min(2*count, 10)*5. *)
Theorem self_loop_reported_as_wash_trade :
  (forall db tx,
     In tx (transactions db) ->
     Transaction.receiver tx = Some (Transaction.from_address tx) ->
     has_edge (build_graph db) (Transaction.from_address tx)
       (Transaction.from_address tx) = true) /\
  (forall g u d,
     well_formed g = true -> edge_data g u u = Some d -> 0 < weight d ->
     exists p, In p (detect_wash_trading g) /\
               wallet_a p = u /\ wallet_b p = u /\
               value_similarity p == 1 /\
               suspicion_score p == 50 + inject_Z (Z.min (2 * count d) 10) * 5).
Proof.
  split.
  - intros db tx I R. apply build_graph_has_edge. eauto.
  - intros g u d W G P.
    assert (S : similarity (weight d) (weight d) == 1).
    { unfold similarity.
      destruct (max_spec (weight d) (weight d)) as [[_ ->]|[_ ->]];
        destruct (min_spec (weight d) (weight d)) as [[_ ->]|[_ ->]];
        (apply gtb_true in P; rewrite P; field; apply gtb_true in P; lra). }
    destruct (detect_wash_trading_complete g u u d d W G G) as (p & I & K).
    { rewrite S. reflexivity. }
    exists p. split; [assumption|].
    destruct (detect_wash_trading_In g p W I) as (duv & dvu & Guv & Gvu & E).
    assert (A : wallet_a p = u /\ wallet_b p = u).
    { unfold pair_key in K.
      assert (U : sorted_pair u u = (u, u)).
      { destruct (sorted_pair_cases u u) as [H|H]; exact H. }
      rewrite U in K.
      destruct (sorted_pair_cases (wallet_a p) (wallet_b p)) as [H|H];
        rewrite H in K; injection K; auto. }
    destruct A as [Ea Eb]. rewrite Ea, Eb in *.
    rewrite G in Guv, Gvu. injection Guv as <-. injection Gvu as <-.
    apply examine_edge_In in E. destruct E as (d' & G' & _ & ->).
    rewrite G in G'. injection G' as <-. simpl.
    split; [reflexivity|]. split; [reflexivity|]. split.
    + rewrite (round_compat _ 1) by exact S. apply (round_Z 1).
    + unfold raw_suspicion.
      rewrite (round_compat _ (inject_Z (50 + Z.min (2 * count d) 10 * 5))).
      * rewrite round_Z, inject_Z_plus, inject_Z_mult. reflexivity.
      * rewrite S, inject_Z_plus, inject_Z_mult.
        replace (count d + count d)%Z with (2 * count d)%Z by lia.
        change (inject_Z 50) with 50. change (inject_Z 5) with 5. ring.
Qed.

Lemma self_loop_reported_as_wash_trade_witness :
  exists p, In p (detect_wash_trading (build_graph Samples.self_transfer)) /\
            wallet_a p = "A"%string /\ wallet_b p = "A"%string /\
            value_similarity p == 1 /\ suspicion_score p == 70.
Proof.
  destruct self_loop_reported_as_wash_trade as [_ H].
  destruct (H (build_graph Samples.self_transfer) "A"%string (mkEdge 6 2 2))
    as (p & I & A & B & S & E).
  - reflexivity.
  - reflexivity.
  - reflexivity.
  - exists p. repeat split; assumption.
Defined.



(** ** The graph score of a wallet *)





Lemma Qdiv_nonneg a b : 0 <= a -> 0 <= b -> 0 <= a / b.
Proof.
  intros A B. unfold Qdiv. apply Qmult_le_0_compat; [assumption|].
  now apply Qinv_le_0_compat.
Qed.











(** ** Feature extraction *)

Lemma extract_features_In db p :
  In p (MLEngine.extract_features db) ->
  exists addr data, p = MLEngine.profile_of addr data.
Proof.
  unfold MLEngine.extract_features.
  destruct (order_by_timestamp (transactions db)) as [|tx txs]; [intros []|].
  intro I. apply in_map_iff in I. destruct I as ([addr data] & <- & _). eauto.
Qed.

Lemma collect_NoDup txs : NoDup (Dict.keys (MLEngine.collect txs)).
Proof.
  unfold MLEngine.collect.
  assert (H : forall wd, NoDup (Dict.keys wd) ->
                NoDup (Dict.keys (fold_left MLEngine.collect_step txs wd))).
  { induction txs as [|tx txs IH]; simpl; [auto|].
    intros wd ND. apply IH. unfold MLEngine.collect_step.
    destruct (Transaction.receiver tx);
      repeat apply (NoDup_keys_update String.eqb string_eqb_eq); assumption. }
  apply H. constructor.
Qed.

Lemma extract_features_addresses db :
  NoDup (MLEngine.addresses (MLEngine.extract_features db)).
Proof.
  unfold MLEngine.addresses, MLEngine.extract_features.
  destruct (order_by_timestamp (transactions db)) as [|tx txs] eqn:E;
    [constructor|].
  rewrite map_map.
  replace (map (fun x => MLEngine.address (let '(addr, data) := x in
                            MLEngine.profile_of addr data))
             (MLEngine.collect (tx :: txs)))
    with (Dict.keys (MLEngine.collect (tx :: txs))).
  - apply collect_NoDup.
  - unfold Dict.keys. apply map_ext. intros [a d]. reflexivity.
Qed.

(** C8 as stated fails: a wallet that received 0.0005 and sent 1 has ratio
    0.0005, not 0.001 / 1: a positive total below the epsilon is not raised
    to it. *)
Lemma io_ratio_floor_counterexample :
  let eps := 1 # 1000 in
  exists p,
    In p (MLEngine.extract_features Samples.dust_receiver) /\
    MLEngine.address p = "A"%string /\
    MLEngine.total_value_received p == 5 # 10000 /\
    MLEngine.total_value_sent p == 1 /\
    MLEngine.inflow_outflow_ratio p == 5 # 10000 /\
    ~ MLEngine.inflow_outflow_ratio p ==
        max (MLEngine.total_value_received p) eps
        / max (MLEngine.total_value_sent p) eps.
Proof.
  cbv zeta.
  exists (MLEngine.profile_of "A"
            (MLEngine.mkData [1] [5 # 10000] ["B"%string] [0; 0]
               [(1%Z, 1%Z); (2%Z, 1%Z)])).
  split; [|split; [reflexivity|split; [|split; [|split]]]].
  - vm_compute. right. left. reflexivity.
  - vm_compute. reflexivity.
  - vm_compute. reflexivity.
  - vm_compute. reflexivity.
  - vm_compute. discriminate.
Qed.

(** C8 (amended): the ratio is received_total / sent_total where a total that
    is not positive is replaced by the epsilon 0.001 before the division (a
    positive total is used as it is); the ratio is strictly greater than 0,
    and it is the quotient of the totals raised to the epsilon whenever each
    total is zero or at least the epsilon. *)
Theorem inflow_outflow_ratio_epsilon (db : Session) (p : MLEngine.RawProfile)
  (I : In p (MLEngine.extract_features db)) :
  let eps := 1 # 1000 in
  let received := MLEngine.total_value_received p in
  let sent := MLEngine.total_value_sent p in
  MLEngine.inflow_outflow_ratio p
  = (if gtb received 0 then received else eps)
    / (if gtb sent 0 then sent else eps) /\
  0 < MLEngine.inflow_outflow_ratio p /\
  (received == 0 \/ eps <= received -> sent == 0 \/ eps <= sent ->
   MLEngine.inflow_outflow_ratio p == max received eps / max sent eps).
Proof.
  destruct (extract_features_In db p I) as (addr & data & ->).
  cbv zeta. simpl.
  set (r := MLEngine.sum (MLEngine.received_values data)).
  set (s := MLEngine.sum (MLEngine.sent_values data)).
  split; [reflexivity|].
  assert (Pr : 0 < (if gtb r 0 then r else 1 # 1000)).
  { destruct (gtb r 0) eqn:G; [now apply gtb_true in G|reflexivity]. }
  assert (Ps : 0 < (if gtb s 0 then s else 1 # 1000)).
  { destruct (gtb s 0) eqn:G; [now apply gtb_true in G|reflexivity]. }
  split.
  - apply Qlt_shift_div_l; [assumption|]. lra.
  - intros Hr Hs.
    assert (Er : (if gtb r 0 then r else 1 # 1000) == max r (1 # 1000)).
    { destruct (max_spec r (1 # 1000)) as [[L ->]|[L ->]];
        destruct (gtb r 0) eqn:G;
        try apply gtb_true in G; try apply gtb_false in G; lra. }
    assert (Es : (if gtb s 0 then s else 1 # 1000) == max s (1 # 1000)).
    { destruct (max_spec s (1 # 1000)) as [[L ->]|[L ->]];
        destruct (gtb s 0) eqn:G;
        try apply gtb_true in G; try apply gtb_false in G; lra. }
    now rewrite Er, Es.
Qed.

Lemma inflow_outflow_ratio_epsilon_witness :
  exists p, In p (MLEngine.extract_features Samples.scenario_a) /\
            0 < MLEngine.inflow_outflow_ratio p.
Proof.
  exists (MLEngine.profile_of "A"
            (MLEngine.mkData [10] [10] ["B"%string] [0; 0] [(100%Z, 2%Z)])).
  assert (I : In (MLEngine.profile_of "A"
                    (MLEngine.mkData [10] [10] ["B"%string] [0; 0] [(100%Z, 2%Z)]))
                (MLEngine.extract_features Samples.scenario_a)).
  { vm_compute. left. reflexivity. }
  split; [exact I|].
  apply (inflow_outflow_ratio_epsilon Samples.scenario_a _ I).
Defined.


(** ** Risk scoring *)

Lemma upsert_risk_find rows row :
  find (fun r => String.eqb (RiskScore.wallet_address r)
                   (RiskScore.wallet_address row))
    (RiskEngine.upsert_risk rows row) = Some row.
Proof.
  induction rows as [|r rows IH]; simpl.
  - now rewrite String.eqb_refl.
  - destruct (String.eqb (RiskScore.wallet_address r)
                (RiskScore.wallet_address row)) eqn:E; simpl.
    + now rewrite String.eqb_refl.
    + now rewrite E.
Qed.

Lemma compute_risk_stored db g address :
  RiskEngine.find_risk (fst (RiskEngine.compute_risk db g address)) address
  = Some (RiskScore.mk address
            (RiskEngine.composite_score (snd (RiskEngine.compute_risk db g address)))
            (RiskEngine.ml_score_of db address)
            (GraphAnalysis.get_wallet_graph_score g address)
            (FlashLoan.get_wallet_flash_score FlashLoan.flash_loan_detector db address)
            (RiskEngine.wash_score_of (GraphAnalysis.detect_wash_trading g) address)
            (RiskEngine.explanation (snd (RiskEngine.compute_risk db g address)))).
Proof.
  unfold RiskEngine.compute_risk, RiskEngine.find_risk. simpl.
  apply (upsert_risk_find (risk_scores db)
           (RiskScore.mk address _ _ _ _ _ _)).
Qed.

Lemma compute_risk_preserves db g address :
  transactions (fst (RiskEngine.compute_risk db g address)) = transactions db /\
  wallet_profiles (fst (RiskEngine.compute_risk db g address)) = wallet_profiles db /\
  alerts (fst (RiskEngine.compute_risk db g address)) = alerts db.
Proof. repeat split. Qed.

Lemma compute_risk_inputs db db' g address :
  transactions db = transactions db' ->
  wallet_profiles db = wallet_profiles db' ->
  snd (RiskEngine.compute_risk db g address)
  = snd (RiskEngine.compute_risk db' g address).
Proof.
  intros Et Ep. unfold RiskEngine.compute_risk. simpl.
  assert (M : RiskEngine.ml_score_of db address
              = RiskEngine.ml_score_of db' address).
  { unfold RiskEngine.ml_score_of, RiskEngine.find_profile. now rewrite Ep. }
  assert (F : FlashLoan.get_wallet_flash_score FlashLoan.flash_loan_detector db address
              = FlashLoan.get_wallet_flash_score FlashLoan.flash_loan_detector db' address).
  { unfold FlashLoan.get_wallet_flash_score, FlashLoan.detect. now rewrite Et. }
  now rewrite M, F.
Qed.

Lemma alert_of_inputs db db' g profile :
  transactions db = transactions db' ->
  wallet_profiles db = wallet_profiles db' ->
  alert_of db g profile = alert_of db' g profile.
Proof.
  intros Et Ep. unfold alert_of.
  now rewrite (compute_risk_inputs db db' g _ Et Ep).
Qed.

Lemma score_profile_step g db n profile :
  let '(db', n') := RiskEngine.score_profile g (db, n) profile in
  transactions db' = transactions db /\
  wallet_profiles db' = wallet_profiles db /\
  alerts db' = alerts db ++ alert_of db g profile /\
  n' = (n + Z.of_nat (length (alert_of db g profile)))%Z.
Proof.
  unfold RiskEngine.score_profile, alert_of.
  destruct (RiskEngine.compute_risk db g (WalletProfile.address profile))
    as [db1 risk] eqn:C.
  pose proof (compute_risk_preserves db g (WalletProfile.address profile)) as P.
  rewrite C in P. simpl in P. destruct P as (Pt & Pp & Pa). simpl snd.
  destruct (geb (RiskEngine.composite_score risk) 40); simpl.
  - rewrite Pt, Pp, Pa. repeat split; lia.
  - rewrite Pt, Pp, Pa, app_nil_r. repeat split; lia.
Qed.

Section FoldAlerts.
Variable step : Session * Z -> WalletProfile.t -> Session * Z.
Variable new_alerts : Session -> WalletProfile.t -> list Alert.t.
Hypothesis step_spec : forall db n p,
  let '(db', n') := step (db, n) p in
  transactions db' = transactions db /\
  wallet_profiles db' = wallet_profiles db /\
  alerts db' = alerts db ++ new_alerts db p /\
  n' = (n + Z.of_nat (length (new_alerts db p)))%Z.
Hypothesis new_alerts_inputs : forall db db' p,
  transactions db = transactions db' ->
  wallet_profiles db = wallet_profiles db' ->
  new_alerts db p = new_alerts db' p.

Lemma fold_alerts profiles : forall db n,
  let '(db', n') := fold_left step profiles (db, n) in
  transactions db' = transactions db /\
  wallet_profiles db' = wallet_profiles db /\
  alerts db' = alerts db ++ flat_map (new_alerts db) profiles /\
  n' = (n + Z.of_nat (length (flat_map (new_alerts db) profiles)))%Z.
Proof.
  induction profiles as [|p ps IH]; intros db n; cbn [fold_left flat_map].
  - rewrite app_nil_r. simpl. repeat split; lia.
  - pose proof (step_spec db n p) as S.
    destruct (step (db, n) p) as [db1 n1].
    destruct S as (St & Sp & Sa & Sn).
    specialize (IH db1 n1).
    destruct (fold_left step ps (db1, n1)) as [db' n'].
    destruct IH as (It & Ip & Ia & In').
    assert (E : flat_map (new_alerts db1) ps = flat_map (new_alerts db) ps).
    { apply flat_map_ext. intro q. now apply new_alerts_inputs. }
    rewrite E in Ia, In'. cbv beta iota.
    split; [congruence|]. split; [congruence|]. split.
    + rewrite Ia, Sa, <- app_assoc. reflexivity.
    + rewrite In', Sn, length_app. lia.
Qed.
End FoldAlerts.

Lemma fold_score_profile g profiles : forall db n,
  let '(db', n') := fold_left (RiskEngine.score_profile g) profiles (db, n) in
  transactions db' = transactions db /\
  wallet_profiles db' = wallet_profiles db /\
  alerts db' = alerts db ++ flat_map (alert_of db g) profiles /\
  n' = (n + Z.of_nat (length (flat_map (alert_of db g) profiles)))%Z.
Proof.
  exact (fold_alerts (RiskEngine.score_profile g) (fun db => alert_of db g)
           (score_profile_step g)
           (fun db db' p => alert_of_inputs db db' g p) profiles).
Qed.


(** ** Training and inference *)


Section InsufficientData.
Variable Model : Type.
Variable fit : list (list Q) -> Z -> Model.
Variable forest_predict : Model -> list (list Q) -> list Z.
Variable decision_function : Model -> list (list Q) -> list Q.
Variable kmeans_predict : Model -> list (list Q) -> list Z.
Variable N_CLUSTERS : Z.
Variable simple_cycles : GraphAnalysis.DiGraph -> list (list string).
Variable betweenness_centrality : GraphAnalysis.DiGraph -> Z -> string -> Q.

Let train := MLEngine.train Model fit N_CLUSTERS.
Let predict :=
  MLEngine.predict Model fit forest_predict decision_function kmeans_predict
    N_CLUSTERS.
Let run_full_detection :=
  RiskEngine.run_full_detection Model fit forest_predict decision_function
    kmeans_predict N_CLUSTERS simple_cycles betweenness_centrality.

End InsufficientData.




Lemma max_of_cases first rest :
  FlashLoan.max_of first rest = first \/ In (FlashLoan.max_of first rest) rest.
Proof.
  unfold FlashLoan.max_of. revert first.
  induction rest as [|x rest IH]; intro first; simpl; [auto|].
  destruct (IH (max first x)) as [H|H]; [|auto].
  rewrite H. destruct (max_spec first x) as [[_ ->]|[_ ->]]; auto.
Qed.





#[export] Instance composite_of_proper w :
  Proper (Qeq ==> Qeq ==> Qeq ==> Qeq ==> Qeq) (RiskEngine.composite_of w).
Proof.
  intros a a' Ea b b' Eb c c' Ec d d' Ed. unfold RiskEngine.composite_of.
  apply min_proper; [|reflexivity]. apply round_compat.
  now rewrite Ea, Eb, Ec, Ed.
Qed.




Lemma severity_of_cases c :
  (75 <= c /\ RiskEngine.severity_of c = "critical"%string) \/
  (50 <= c /\ c < 75 /\ RiskEngine.severity_of c = "high"%string) \/
  (25 <= c /\ c < 50 /\ RiskEngine.severity_of c = "medium"%string) \/
  (c < 25 /\ RiskEngine.severity_of c = "low"%string).
Proof.
  unfold RiskEngine.severity_of.
  destruct (geb c 75) eqn:A.
  { apply geb_true in A. auto. }
  apply geb_false in A.
  destruct (geb c 50) eqn:B.
  { apply geb_true in B. auto. }
  apply geb_false in B.
  destruct (geb c 25) eqn:C.
  { apply geb_true in C. auto 6. }
  apply geb_false in C. auto 6.
Qed.

Lemma compute_risk_composite db g address :
  RiskEngine.composite_score (snd (RiskEngine.compute_risk db g address))
  = RiskEngine.composite_of RiskEngine.RISK_WEIGHTS
      (RiskEngine.ml_score_of db address)
      (GraphAnalysis.get_wallet_graph_score g address)
      (FlashLoan.get_wallet_flash_score FlashLoan.flash_loan_detector db address)
      (RiskEngine.wash_score_of (GraphAnalysis.detect_wash_trading g) address).
Proof. reflexivity. Qed.

Lemma compute_risk_severity db g address :
  RiskEngine.severity (snd (RiskEngine.compute_risk db g address))
  = RiskEngine.severity_of
      (RiskEngine.composite_of RiskEngine.RISK_WEIGHTS
         (RiskEngine.ml_score_of db address)
         (GraphAnalysis.get_wallet_graph_score g address)
         (FlashLoan.get_wallet_flash_score FlashLoan.flash_loan_detector db address)
         (RiskEngine.wash_score_of (GraphAnalysis.detect_wash_trading g) address)).
Proof. reflexivity. Qed.

(** C2: the severity of [compute_risk] is decided on the composite with
    inclusive lower bounds: >= 75 critical, >= 50 high, >= 25 medium, else
    low; 75.00, 74.99, 50.00, 49.99, 25.00 and 24.99 fall as stated. *)
Theorem severity_thresholds (db : Session) (g : GraphAnalysis.DiGraph)
  (address : string) :
  let r := snd (RiskEngine.compute_risk db g address) in
  let c := RiskEngine.composite_score r in
  ((75 <= c /\ RiskEngine.severity r = "critical"%string) \/
   (50 <= c /\ c < 75 /\ RiskEngine.severity r = "high"%string) \/
   (25 <= c /\ c < 50 /\ RiskEngine.severity r = "medium"%string) \/
   (c < 25 /\ RiskEngine.severity r = "low"%string)) /\
  (forall x : Q,
     (75 <= x /\ RiskEngine.severity_of x = "critical"%string) \/
     (50 <= x /\ x < 75 /\ RiskEngine.severity_of x = "high"%string) \/
     (25 <= x /\ x < 50 /\ RiskEngine.severity_of x = "medium"%string) \/
     (x < 25 /\ RiskEngine.severity_of x = "low"%string)) /\
  RiskEngine.severity_of 75 = "critical"%string /\
  RiskEngine.severity_of (7499 # 100) = "high"%string /\
  RiskEngine.severity_of 50 = "high"%string /\
  RiskEngine.severity_of (4999 # 100) = "medium"%string /\
  RiskEngine.severity_of 25 = "medium"%string /\
  RiskEngine.severity_of (2499 # 100) = "low"%string.
Proof.
  intros r c. split; [|split; [exact severity_of_cases|]].
  - unfold c, r. rewrite compute_risk_severity, compute_risk_composite.
    apply severity_of_cases.
  - repeat split.
Qed.




Section Alerts.
Variable Model : Type.
Variable fit : list (list Q) -> Z -> Model.
Variable forest_predict : Model -> list (list Q) -> list Z.
Variable decision_function : Model -> list (list Q) -> list Q.
Variable kmeans_predict : Model -> list (list Q) -> list Z.
Variable N_CLUSTERS : Z.
Variable simple_cycles : GraphAnalysis.DiGraph -> list (list string).
Variable betweenness_centrality : GraphAnalysis.DiGraph -> Z -> string -> Q.

Let run_full_detection :=
  RiskEngine.run_full_detection Model fit forest_predict decision_function
    kmeans_predict N_CLUSTERS simple_cycles betweenness_centrality.

End Alerts.

(** * Further properties of the services *)

(** ** Sorted results *)

Section SortedFacts.
Context {A : Type}.
Variable before : A -> A -> bool.
Variable R : A -> A -> Prop.
Hypothesis before_true : forall x y, before y x = true -> R y x.
Hypothesis before_false : forall x y, before y x = false -> R x y.
Hypothesis R_trans : forall x y z, R x y -> R y z -> R x z.

Lemma insert_sorted x l :
  StronglySorted R l -> StronglySorted R (PySort.insert before x l).
Proof.
  induction l as [|y l IH]; simpl; intro S.
  - constructor; constructor.
  - inversion S as [|? ? S' F]; subst.
    destruct (before y x) eqn:B.
    + constructor; [auto|].
      apply Forall_forall. intros z Iz.
      apply (Permutation_in _ (insert_perm before x l)) in Iz.
      destruct Iz as [<-|Iz]; [auto|].
      rewrite Forall_forall in F. auto.
    + constructor; [assumption|]. constructor; [auto|].
      apply Forall_forall. intros z Iz. rewrite Forall_forall in F.
      eauto.
Qed.

Lemma sort_sorted l : StronglySorted R (PySort.sort before l).
Proof.
  induction l as [|x l IH]; simpl; [constructor|].
  now apply insert_sorted.
Qed.
End SortedFacts.

Lemma sort_desc_sorted {A : Type} (key : A -> Q) (l : list A) :
  StronglySorted (fun a b => key b <= key a)
    (PySort.sort (fun y x => gtb (key y) (key x)) l).
Proof.
  apply sort_sorted.
  - intros x y H. apply gtb_true in H. now apply Qlt_le_weak.
  - intros x y H. now apply gtb_false in H.
  - intros x y z H1 H2. now apply Qle_trans with (y := key y).
Qed.

Lemma NoDup_flat_map {A B : Type} (f : A -> list B) (l : list A) :
  NoDup l ->
  (forall x, In x l -> NoDup (f x)) ->
  (forall x y b, In x l -> In y l -> In b (f x) -> In b (f y) -> x = y) ->
  NoDup (flat_map f l).
Proof.
  induction l as [|a l IH]; simpl; intros ND Hf Hd; [constructor|].
  inversion ND as [|? ? N ND']; subst.
  assert (Hl : NoDup (flat_map f l)).
  { apply IH; [assumption| |]; intros; eauto. }
  assert (Ha : NoDup (f a)) by auto.
  assert (D : forall b, In b (f a) -> ~ In b (flat_map f l)).
  { intros b Ib I. apply in_flat_map in I. destruct I as (y & Iy & Iby).
    assert (E : a = y) by (apply (Hd a y b); auto).
    subst. contradiction. }
  clear - Hl Ha D. induction (f a) as [|b bs IHb]; simpl; [assumption|].
  inversion Ha; subst. constructor.
  - rewrite in_app_iff. intros [I|I]; [contradiction|].
    apply (D b); [now left|assumption].
  - apply IHb; [assumption|]. intros c Ic. apply D. now right.
Qed.

Lemma NoDup_map_on {A B : Type} (f : A -> B) (l : list A) :
  NoDup l ->
  (forall x y, In x l -> In y l -> f x = f y -> x = y) ->
  NoDup (map f l).
Proof.
  induction l as [|a l IH]; simpl; intros ND Inj; [constructor|].
  inversion ND as [|? ? N ND']; subst. constructor.
  - intro I. apply in_map_iff in I. destruct I as (y & E & Iy).
    assert (y = a) by (apply Inj; auto). subst. contradiction.
  - apply IH; [assumption|]. intros; apply Inj; auto.
Qed.

(** ** Flash-loan detection: order, uniqueness and score range *)

Lemma examine_NoDup self b w fl : NoDup (FlashLoan.examine self b w fl).
Proof.
  unfold FlashLoan.examine.
  destruct (_ || _); [constructor|].
  destruct (leb _ _); [|constructor].
  constructor; [intros []|constructor].
Qed.

Lemma examine_origin self b w fl s :
  In s (FlashLoan.examine self b w fl) ->
  FlashLoan.block_number s = b /\ FlashLoan.wallet s = w.
Proof.
  intro I. apply examine_In in I. destruct I as (_ & _ & _ & ->).
  split; reflexivity.
Qed.

Lemma scan_NoDup self bw :
  wf_block_wallet bw -> NoDup (FlashLoan.scan self bw).
Proof.
  intros [ND IN]. unfold FlashLoan.scan.
  apply NoDup_flat_map.
  - apply (@NoDup_map_inv _ _ fst). exact ND.
  - intros [b ws] I. apply NoDup_flat_map.
    + apply (@NoDup_map_inv _ _ fst). apply (IN b).
      now apply (In_get Z.eqb Z_eqb_eq).
    + intros [w fl] _. apply examine_NoDup.
    + intros [w fl] [w' fl'] s I1 I2 H1 H2.
      apply examine_origin in H1, H2.
      assert (Ew : w = w') by (destruct H1 as [_ <-]; now destruct H2).
      subst w'.
      assert (NDw : NoDup (Dict.keys ws)).
      { apply (IN b). now apply (In_get Z.eqb Z_eqb_eq). }
      pose proof (In_get String.eqb string_eqb_eq _ _ _ NDw I1) as G1.
      pose proof (In_get String.eqb string_eqb_eq _ _ _ NDw I2) as G2.
      congruence.
  - intros [b ws] [b' ws'] s I1 I2 H1 H2.
    apply in_flat_map in H1, H2.
    destruct H1 as ([w fl] & _ & H1). destruct H2 as ([w' fl'] & _ & H2).
    apply examine_origin in H1, H2.
    assert (Eb : b = b') by (destruct H1 as [<- _]; now destruct H2).
    subst b'.
    pose proof (In_get Z.eqb Z_eqb_eq _ _ _ ND I1) as G1.
    pose proof (In_get Z.eqb Z_eqb_eq _ _ _ ND I2) as G2.
    congruence.
Qed.

Lemma scan_key_injective self bw s1 s2 :
  wf_block_wallet bw ->
  In s1 (FlashLoan.scan self bw) -> In s2 (FlashLoan.scan self bw) ->
  (FlashLoan.block_number s1, FlashLoan.wallet s1)
  = (FlashLoan.block_number s2, FlashLoan.wallet s2) ->
  s1 = s2.
Proof.
  intros W I1 I2 E. apply scan_In in I1, I2.
  destruct I1 as (b1 & ws1 & w1 & fl1 & A1 & B1 & H1).
  destruct I2 as (b2 & ws2 & w2 & fl2 & A2 & B2 & H2).
  pose proof (wf_In_flows_at _ _ _ _ _ W A1 B1) as G1.
  pose proof (wf_In_flows_at _ _ _ _ _ W A2 B2) as G2.
  apply examine_In in H1, H2.
  destruct H1 as (_ & _ & _ & E1). destruct H2 as (_ & _ & _ & E2).
  subst s1 s2. simpl in E. injection E as -> ->.
  rewrite G1 in G2. injection G2 as ->. reflexivity.
Qed.

(** X1: the events come sorted by descending score and no (block, wallet)
    pair is reported twice. *)
Theorem flash_detect_sorted_unique (self : FlashLoan.FlashLoanDetector)
  (db : Session) :
  StronglySorted
    (fun a b => FlashLoan.flash_loan_score b <= FlashLoan.flash_loan_score a)
    (FlashLoan.detect self db) /\
  NoDup (map (fun s => (FlashLoan.block_number s, FlashLoan.wallet s))
           (FlashLoan.detect self db)).
Proof.
  split.
  - apply (sort_desc_sorted FlashLoan.flash_loan_score).
  - unfold FlashLoan.detect, FlashLoan.by_score_desc.
    set (bw := FlashLoan.group _).
    assert (W : wf_block_wallet bw) by apply wf_group.
    apply Permutation_NoDup
      with (l := map (fun s => (FlashLoan.block_number s, FlashLoan.wallet s))
                   (FlashLoan.scan self bw)).
    + apply Permutation_map. symmetry. apply sort_perm.
    + apply NoDup_map_on; [now apply scan_NoDup|].
      intros x y Ix Iy. now apply (scan_key_injective self bw).
Qed.

Lemma round_ge x y n : decimals n y -> y <= x -> y <= round x n.
Proof.
  intros D L. rewrite <- (round_fixed y n D). now apply round_mono.
Qed.

Lemma round_le x y n : decimals n y -> x <= y -> round x n <= y.
Proof.
  intros D L. rewrite <- (round_fixed y n D). now apply round_mono.
Qed.

(** X2: with the default tolerance of 5%, every reported event has a score
    between 95 and 100, a value difference between 0 and 5 percent, and
    reported inflow and outflow of at least 1. *)
Theorem flash_detect_event_ranges (db : Session) (s : FlashLoan.Suspect)
  (I : In s (FlashLoan.detect FlashLoan.flash_loan_detector db)) :
  95 <= FlashLoan.flash_loan_score s /\ FlashLoan.flash_loan_score s <= 100 /\
  0 <= FlashLoan.value_difference_pct s /\ FlashLoan.value_difference_pct s <= 5 /\
  1 <= FlashLoan.inflow_eth s /\ 1 <= FlashLoan.outflow_eth s.
Proof.
  apply detect_In in I. destruct I as (fl & _ & E).
  apply examine_In in E. destruct E as (Li & Lo & Ld & ->). simpl in *.
  destruct (diff_ratio_bounds (FlashLoan.inflow fl) (FlashLoan.outflow fl))
    as [D0 D1]; [lra|lra|].
  set (d := FlashLoan.diff_ratio _ _) in *.
  repeat split.
  - apply (round_ge_Z _ 95). change (inject_Z 95) with 95. lra.
  - apply (round_le_Z _ 100). change (inject_Z 100) with 100. lra.
  - apply (round_ge_Z _ 0). change (inject_Z 0) with 0. lra.
  - apply (round_le_Z _ 5). change (inject_Z 5) with 5. lra.
  - apply (round_ge_Z _ 1). exact Li.
  - apply (round_ge_Z _ 1). exact Lo.
Qed.

Lemma flash_detect_event_ranges_witness :
  exists s, In s (FlashLoan.detect FlashLoan.flash_loan_detector Samples.near_equal) /\
            95 <= FlashLoan.flash_loan_score s.
Proof.
  assert (I : In (FlashLoan.mkSuspect "A" 1 (round (31 # 10) 6) (round 3 6)
                    (round ((1 # 31) * 100) 2) (round ((1 - (1 # 31)) * 100) 2))
                (FlashLoan.detect FlashLoan.flash_loan_detector Samples.near_equal)).
  { vm_compute. left. reflexivity. }
  eexists. split; [exact I|].
  apply (flash_detect_event_ranges Samples.near_equal _ I).
Defined.

Lemma max_of_ge_first first rest : first <= FlashLoan.max_of first rest.
Proof.
  unfold FlashLoan.max_of. revert first.
  induction rest as [|y rest IH]; intro first; simpl; [apply Qle_refl|].
  apply Qle_trans with (y := max first y); [apply max_ge_l|apply IH].
Qed.

Lemma max_of_ge first rest x :
  In x rest -> x <= FlashLoan.max_of first rest.
Proof.
  unfold FlashLoan.max_of. revert first.
  induction rest as [|y rest IH]; intros first I; simpl; [destruct I|].
  destruct I as [->|I]; [|now apply IH].
  apply Qle_trans with (y := max first x); [apply max_ge_r|].
  apply (max_of_ge_first (max first x) rest).
Qed.

(** X3: the flash score of a wallet is 0 when no event names it; otherwise
    it is the score of one of its events and no event of the wallet scores
    higher. *)
Theorem wallet_flash_score_is_max (self : FlashLoan.FlashLoanDetector)
  (db : Session) (address : string) :
  let fs := FlashLoan.get_wallet_flash_score self db address in
  let mine d := In d (FlashLoan.detect self db) /\ FlashLoan.wallet d = address in
  ((forall d, ~ mine d) -> fs = 0) /\
  (forall d, mine d -> FlashLoan.flash_loan_score d <= fs) /\
  (forall d, mine d -> exists d', mine d' /\ fs = FlashLoan.flash_loan_score d').
Proof.
  cbv zeta. unfold FlashLoan.get_wallet_flash_score.
  set (l := filter _ (FlashLoan.detect self db)).
  assert (M : forall d, In d l <->
                In d (FlashLoan.detect self db) /\ FlashLoan.wallet d = address).
  { intro d. unfold l. rewrite filter_In, String.eqb_eq. reflexivity. }
  destruct l as [|d0 ds].
  - split; [reflexivity|]. split; intros d H; apply M in H; destruct H.
  - split; [|split].
    + intro N. exfalso. apply (N d0). apply M. now left.
    + intros d H. apply M in H. destruct H as [<-|H].
      * apply max_of_ge_first.
      * apply max_of_ge. now apply in_map.
    + intros _ _.
      destruct (max_of_cases (FlashLoan.flash_loan_score d0)
                  (map FlashLoan.flash_loan_score ds)) as [H|H].
      * exists d0. split; [apply M; now left|exact H].
      * apply in_map_iff in H. destruct H as (d' & E & I).
        exists d'. split; [apply M; now right|now symmetry].
Qed.

(** ** The built graph: invariants *)

Lemma of_list_length_le {A : Type} (eqb : A -> A -> bool) (l : list A) :
  forall s, (length (fold_left (PySet.add eqb) l s) <= length s + length l)%nat.
Proof.
  induction l as [|x l IH]; intro s; simpl; [lia|].
  specialize (IH (PySet.add eqb s x)).
  assert (L : (length (PySet.add eqb s x) <= S (length s))%nat).
  { unfold PySet.add. destruct (PySet.contains eqb s x); [lia|].
    rewrite length_app. simpl. lia. }
  lia.
Qed.

Lemma set_fold_length_ge {A : Type} (eqb : A -> A -> bool) (l : list A) :
  forall s, (length s <= length (fold_left (PySet.add eqb) l s))%nat.
Proof.
  induction l as [|x l IH]; intro s; simpl; [lia|].
  specialize (IH (PySet.add eqb s x)).
  assert (L : (length s <= length (PySet.add eqb s x))%nat).
  { unfold PySet.add. destruct (PySet.contains eqb s x); [lia|].
    rewrite length_app. simpl. lia. }
  lia.
Qed.

Lemma build_graph_edge_counts db u v d :
  edge_data (build_graph db) u v = Some d ->
  (1 <= blocks d)%Z /\ (blocks d <= count d)%Z /\
  count d = sent_count (transactions db) u v.
Proof.
  intro G.
  assert (E : has_edge (build_graph db) u v = true).
  { unfold has_edge. now rewrite G. }
  apply build_graph_has_edge in E. destruct E as (tx & I & Ef & Er).
  rewrite build_graph_edge_data in G.
  pose proof (fold_acc_count u v (transactions db) None) as Hc.
  pose proof (fold_acc_blocks u v (transactions db) None) as Hb.
  destruct (fold_left (acc_step u v) (transactions db) None) as [a|];
    [|discriminate].
  simpl in G, Hc, Hb. injection G as <-. simpl.
  rewrite Hc, Hb. unfold sent_count.
  set (sent := filter (sends u v) (transactions db)).
  assert (Is : In tx sent).
  { apply filter_In. split; [assumption|]. now apply sends_spec. }
  pose proof (of_list_length_le Z.eqb (map Transaction.block_number sent) [])
    as Up.
  rewrite length_map in Up. simpl in Up.
  assert (Lo : (1 <= length (fold_left (PySet.add Z.eqb)
                               (map Transaction.block_number sent) []))%nat).
  { destruct sent as [|t sent']; [destruct Is|]. simpl.
    pose proof (set_fold_length_ge Z.eqb (map Transaction.block_number sent')
                  (PySet.add Z.eqb [] (Transaction.block_number t))) as L.
    simpl in L. lia. }
  repeat split; lia.
Qed.

Lemma In_adj_node g u v d :
  In (v, d) (adj g u) -> In u (nodes g).
Proof.
  unfold adj, Dict.get_default, nodes.
  destruct (Dict.get String.eqb g u) as [succ|] eqn:G; [|intros []].
  intros _. apply (In_keys_get String.eqb string_eqb_eq). congruence.
Qed.

(** X4: the graph [build_graph] produces lists no node and no edge twice,
    both end points of every edge are nodes, every node has at least one
    incident edge, and every edge carries a count of at least 1 and a
    distinct-block number between 1 and its count. *)
Theorem build_graph_invariants (db : Session) :
  let g := build_graph db in
  well_formed g = true /\
  (forall u v, has_edge g u v = true ->
               has_node g u = true /\ has_node g v = true) /\
  (forall n, has_node g n = true ->
             exists m, has_edge g n m = true \/ has_edge g m n = true) /\
  (forall u v d, edge_data g u v = Some d ->
                 (1 <= blocks d)%Z /\ (blocks d <= count d)%Z).
Proof.
  intro g. split; [apply build_graph_well_formed|]. split; [|split].
  - intros u v E. apply build_graph_has_edge in E.
    destruct E as (tx & I & <- & R).
    split; apply build_graph_has_node; exists tx, v; auto.
  - intros n N. apply build_graph_has_node in N.
    destruct N as (tx & r & I & R & [->| ->]).
    + exists r. left. apply build_graph_has_edge. eauto.
    + exists (Transaction.from_address tx). right.
      apply build_graph_has_edge. eauto.
  - intros u v d G.
    destruct (build_graph_edge_counts db u v d G) as (A & B & _). auto.
Qed.

(** ** Wash trading: order and score range *)

(** X5: the pairs come sorted by descending suspicion score; on a graph
    made by [build_graph] every reported score lies between 50 and 100 (so
    it always exceeds the wash-trade trigger of 40). *)
Theorem wash_trading_sorted_and_range (db : Session) :
  let g := build_graph db in
  StronglySorted (fun a b => suspicion_score b <= suspicion_score a)
    (detect_wash_trading g) /\
  (forall p, In p (detect_wash_trading g) ->
             50 <= suspicion_score p /\ suspicion_score p <= 100 /\
             (1 <= tx_count_a_to_b p)%Z /\ (1 <= tx_count_b_to_a p)%Z).
Proof.
  intro g. split; [apply (sort_desc_sorted suspicion_score)|].
  intros p I.
  destruct (detect_wash_trading_In g p (build_graph_well_formed db) I)
    as (duv & dvu & Guv & Gvu & E).
  apply examine_edge_In in E. destruct E as (d' & G' & S & Ep).
  rewrite Gvu in G'. injection G' as <-.
  destruct (build_graph_edge_counts db _ _ _ Guv) as (B1 & C1 & _).
  destruct (build_graph_edge_counts db _ _ _ Gvu) as (B2 & C2 & _).
  destruct (similarity_qualifies _ _ S) as (_ & _ & U).
  rewrite Ep. simpl. unfold raw_suspicion.
  set (sim := similarity (weight duv) (weight dvu)) in *.
  set (m := Z.min (count duv + count dvu) 10).
  assert (Lm : (2 <= m)%Z) by (unfold m; lia).
  assert (Um : (m <= 10)%Z) by (unfold m; lia).
  assert (Lq : 2 <= inject_Z m).
  { change 2 with (inject_Z 2). now rewrite <- Zle_Qle. }
  assert (Uq : inject_Z m <= 10).
  { change 10 with (inject_Z 10). now rewrite <- Zle_Qle. }
  split; [|split; [|split; lia]].
  - apply (round_ge_Z _ 50). change (inject_Z 50) with 50. lra.
  - apply (round_le_Z _ 100). change (inject_Z 100) with 100. lra.
Qed.

Lemma wash_score_of_fold pairs address : forall acc,
  let f := fun wash_score pair =>
             if String.eqb (wallet_a pair) address
                || String.eqb (wallet_b pair) address
             then max wash_score (suspicion_score pair)
             else wash_score in
  let r := fold_left f pairs acc in
  acc <= r /\
  (forall p, In p pairs -> wallet_a p = address \/ wallet_b p = address ->
             suspicion_score p <= r) /\
  (r = acc \/
   exists p, In p pairs /\ (wallet_a p = address \/ wallet_b p = address) /\
             r = suspicion_score p).
Proof.
  induction pairs as [|q pairs IH]; intro acc; simpl.
  - split; [apply Qle_refl|]. split; [intros p []|auto].
  - destruct (String.eqb (wallet_a q) address
              || String.eqb (wallet_b q) address) eqn:M.
    + destruct (IH (max acc (suspicion_score q))) as (A & B & C).
      apply orb_true_iff in M. rewrite !String.eqb_eq in M.
      split; [|split].
      * apply Qle_trans with (y := max acc (suspicion_score q));
          [apply max_ge_l|exact A].
      * intros p [<-|I] H; [|now apply B].
        apply Qle_trans with (y := max acc (suspicion_score q));
          [apply max_ge_r|exact A].
      * destruct C as [C|(p & I & H & C)].
        -- rewrite C.
           destruct (max_spec acc (suspicion_score q)) as [[_ ->]|[_ ->]];
             [|auto].
           right. exists q. auto.
        -- right. exists p. auto.
    + destruct (IH acc) as (A & B & C).
      apply orb_false_iff in M. rewrite !String.eqb_neq in M.
      split; [exact A|]. split.
      * intros p [<-|I] H; [tauto|now apply B].
      * destruct C as [C|(p & I & H & C)]; [auto|].
        right. exists p. auto.
Qed.

(** X6: the wash score [compute_risk] derives for a wallet is 0 when no
    reported pair contains it; otherwise it is at least the score of every
    pair containing the wallet and, when positive, the score of one of
    them. *)
Theorem wash_score_is_max (pairs : list WashPair) (address : string) :
  let ws := RiskEngine.wash_score_of pairs address in
  let mine p := In p pairs /\ (wallet_a p = address \/ wallet_b p = address) in
  0 <= ws /\
  ((forall p, ~ mine p) -> ws = 0) /\
  (forall p, mine p -> suspicion_score p <= ws) /\
  (ws = 0 \/ exists p, mine p /\ ws = suspicion_score p).
Proof.
  cbv zeta. unfold RiskEngine.wash_score_of.
  destruct (wash_score_of_fold pairs address 0) as (A & B & C).
  cbv zeta in A, B, C.
  split; [exact A|]. split; [|split].
  - intro N. destruct C as [C|(p & I & H & C)]; [exact C|].
    exfalso. apply (N p). auto.
  - intros p [I H]. now apply B.
  - destruct C as [C|(p & I & H & C)]; [auto|]. right. exists p. auto.
Qed.

(** ** Cycles, centrality and the graph view *)

Lemma In_firstn_In {A : Type} (x : A) (n : nat) (l : list A) :
  In x (firstn n l) -> In x l.
Proof.
  intro I. rewrite <- (firstn_skipn n l). apply in_app_iff. now left.
Qed.

Lemma keep_cycles_firstn max_length all_cycles : forall cycles,
  (length cycles < 200)%nat ->
  keep_cycles max_length all_cycles cycles
  = firstn 200 (cycles ++ filter (qualifying_cycle max_length) all_cycles).
Proof.
  induction all_cycles as [|c rest IH]; intros cycles L;
    cbn [keep_cycles filter].
  - rewrite app_nil_r. symmetry. apply firstn_all2. lia.
  - fold (qualifying_cycle max_length c).
    destruct (qualifying_cycle max_length c) eqn:Q.
    + destruct (Z.leb_spec 200 (Z.of_nat (length (cycles ++ [c])))) as [H|H].
      * assert (E : length (cycles ++ [c]) = 200%nat).
        { rewrite length_app in *. cbn [length] in *. lia. }
        change (cycles ++ c :: filter (qualifying_cycle max_length) rest)
          with (cycles ++ [c] ++ filter (qualifying_cycle max_length) rest).
        rewrite app_assoc, firstn_app, E, Nat.sub_diag, firstn_O, app_nil_r.
        symmetry. apply firstn_all2. lia.
      * rewrite IH.
        -- now rewrite <- app_assoc.
        -- lia.
    + destruct (Z.leb_spec 200 (Z.of_nat (length cycles))) as [H|H]; [lia|].
      now apply IH.
Qed.

(** X7: [detect_cycles] returns the first 200 cycles, in enumeration order,
    among those of length 2 to [max_length]; hence never more than 200, and
    all of them when fewer qualify. *)
Theorem detect_cycles_first_200
  (simple_cycles : DiGraph -> list (list string)) (g : DiGraph)
  (max_length : Z) :
  let qualifying := filter (qualifying_cycle max_length) (simple_cycles g) in
  detect_cycles simple_cycles g max_length = firstn 200 qualifying /\
  (length (detect_cycles simple_cycles g max_length) <= 200)%nat /\
  (forall c, In c (detect_cycles simple_cycles g max_length) ->
             In c (simple_cycles g) /\
             (2 <= Z.of_nat (length c) <= max_length)%Z) /\
  ((length qualifying <= 200)%nat ->
   detect_cycles simple_cycles g max_length = qualifying).
Proof.
  intro qualifying.
  assert (E : detect_cycles simple_cycles g max_length = firstn 200 qualifying).
  { unfold detect_cycles. rewrite keep_cycles_firstn.
    - reflexivity.
    - cbn [length]. lia. }
  rewrite E. split; [reflexivity|]. split; [apply firstn_le_length|]. split.
  - intros c I. apply In_firstn_In in I. apply filter_In in I.
    destruct I as [I Q]. split; [assumption|].
    unfold qualifying_cycle in Q. lia.
  - intro L. now apply firstn_all2.
Qed.



(** ** Risk rows *)







(** ** Explanations and alerts *)

Lemma compute_risk_explanation db g address :
  RiskEngine.explanation (snd (RiskEngine.compute_risk db g address))
  = RiskEngine.explanations_of
      (RiskEngine.ml_score_of db address)
      (GraphAnalysis.get_wallet_graph_score g address)
      (FlashLoan.get_wallet_flash_score FlashLoan.flash_loan_detector db address)
      (RiskEngine.wash_score_of (GraphAnalysis.detect_wash_trading g) address).
Proof. reflexivity. Qed.

Lemma explanations_of_spec ml gs fs ws :
  let e := RiskEngine.explanations_of ml gs fs ws in
  (e = [] <-> ml <= 50 /\ gs <= 30 /\ fs <= 50 /\ ws <= 40) /\
  (forall x, In (MlAnomalyHigh x) e <-> x = ml /\ 50 < ml) /\
  (forall x, In (GraphSuspicious x) e <-> x = gs /\ 30 < gs) /\
  (forall x, In (FlashLoanLike x) e <-> x = fs /\ 50 < fs) /\
  (forall x, In (WashTradingLike x) e <-> x = ws /\ 40 < ws) /\
  (length e <= 4)%nat.
Proof.
  cbv zeta. unfold RiskEngine.explanations_of.
  destruct (gtb ml 50) eqn:A; [apply gtb_true in A|apply gtb_false in A];
  (destruct (gtb gs 30) eqn:B; [apply gtb_true in B|apply gtb_false in B]);
  (destruct (gtb fs 50) eqn:C; [apply gtb_true in C|apply gtb_false in C]);
  (destruct (gtb ws 40) eqn:D; [apply gtb_true in D|apply gtb_false in D]);
  cbn [app In length];
  (split; [split; [intro H; try discriminate H; auto
                  |intros (H1 & H2 & H3 & H4); try reflexivity; exfalso; lra]|]);
  (split; [intro x; split; intro H;
           [intuition (try discriminate; try congruence)
           |destruct H as [-> H]; try (exfalso; lra); auto 6]|]);
  (split; [intro x; split; intro H;
           [intuition (try discriminate; try congruence)
           |destruct H as [-> H]; try (exfalso; lra); auto 6]|]);
  (split; [intro x; split; intro H;
           [intuition (try discriminate; try congruence)
           |destruct H as [-> H]; try (exfalso; lra); auto 6]|]);
  (split; [intro x; split; intro H;
           [intuition (try discriminate; try congruence)
           |destruct H as [-> H]; try (exfalso; lra); auto 6]|]);
  lia.
Qed.

Lemma flash_detect_score_ge_95 db s :
  In s (FlashLoan.detect FlashLoan.flash_loan_detector db) ->
  95 <= FlashLoan.flash_loan_score s.
Proof.
  intro I. apply detect_In in I. destruct I as (fl & _ & E).
  apply examine_In in E. destruct E as (Li & Lo & Ld & ->).
  cbn [FlashLoan.flash_loan_score FlashLoan.value_tolerance
       FlashLoan.min_value_eth FlashLoan.flash_loan_detector] in *.
  apply (round_ge_Z _ 95). change (inject_Z 95) with 95. lra.
Qed.

Lemma wallet_flash_score_positive db address :
  50 < FlashLoan.get_wallet_flash_score FlashLoan.flash_loan_detector db address
  <-> exists d, In d (FlashLoan.detect FlashLoan.flash_loan_detector db) /\
                FlashLoan.wallet d = address.
Proof.
  unfold FlashLoan.get_wallet_flash_score.
  set (l := filter _ (FlashLoan.detect FlashLoan.flash_loan_detector db)).
  assert (M : forall d, In d l <->
                In d (FlashLoan.detect FlashLoan.flash_loan_detector db)
                /\ FlashLoan.wallet d = address).
  { intro d. unfold l. rewrite filter_In, String.eqb_eq. reflexivity. }
  destruct l as [|d0 ds].
  - split; [intro H; exfalso; revert H; apply Qle_not_lt; discriminate|].
    intros (d & H). apply M in H. destruct H.
  - split; intros _.
    + exists d0. apply M. now left.
    + assert (I0 : In d0 (FlashLoan.detect FlashLoan.flash_loan_detector db)).
      { apply M. now left. }
      pose proof (flash_detect_score_ge_95 db d0 I0) as L.
      pose proof (max_of_ge_first (FlashLoan.flash_loan_score d0)
                    (map FlashLoan.flash_loan_score ds)) as G.
      lra.
Qed.

(** X11: the explanation of [compute_risk] is empty exactly when no
    component exceeds its trigger (ml 50, graph 30, flash 50, wash 40); each
    sentence is present exactly when its component does, quoting that
    component; and the flash-loan sentence is present exactly when some
    detected flash-loan event names the wallet. *)
Theorem explanation_lists_triggered_components (db : Session)
  (g : GraphAnalysis.DiGraph) (address : string) :
  let e := RiskEngine.explanation (snd (RiskEngine.compute_risk db g address)) in
  let ml := RiskEngine.ml_score_of db address in
  let gs := GraphAnalysis.get_wallet_graph_score g address in
  let fs := FlashLoan.get_wallet_flash_score FlashLoan.flash_loan_detector db address in
  let ws := RiskEngine.wash_score_of (GraphAnalysis.detect_wash_trading g) address in
  (e = [] <-> ml <= 50 /\ gs <= 30 /\ fs <= 50 /\ ws <= 40) /\
  (forall x, In (MlAnomalyHigh x) e <-> x = ml /\ 50 < ml) /\
  (forall x, In (GraphSuspicious x) e <-> x = gs /\ 30 < gs) /\
  (forall x, In (FlashLoanLike x) e <-> x = fs /\ 50 < fs) /\
  (forall x, In (WashTradingLike x) e <-> x = ws /\ 40 < ws) /\
  (length e <= 4)%nat /\
  (In (FlashLoanLike fs) e <->
   exists d, In d (FlashLoan.detect FlashLoan.flash_loan_detector db) /\
             FlashLoan.wallet d = address).
Proof.
  intros e ml gs fs ws. unfold e. rewrite compute_risk_explanation.
  fold ml gs fs ws.
  destruct (explanations_of_spec ml gs fs ws) as (A & B & C & D & E & F).
  split; [exact A|]. split; [exact B|]. split; [exact C|].
  split; [exact D|]. split; [exact E|]. split; [exact F|].
  rewrite (D fs). unfold fs. rewrite <- wallet_flash_score_positive.
  split; [tauto|]. intro H. split; [reflexivity|exact H].
Qed.



Lemma composite_of_le_100 w ml gs fs ws :
  RiskEngine.composite_of w ml gs fs ws <= 100.
Proof. unfold RiskEngine.composite_of. apply min_le_r. Qed.

Lemma build_graph_transactions db db' :
  transactions db = transactions db' -> build_graph db = build_graph db'.
Proof. intro E. unfold build_graph. now rewrite E. Qed.

Section PipelineEffect.
Variable Model : Type.
Variable fit : list (list Q) -> Z -> Model.
Variable forest_predict : Model -> list (list Q) -> list Z.
Variable decision_function : Model -> list (list Q) -> list Q.
Variable kmeans_predict : Model -> list (list Q) -> list Z.
Variable N_CLUSTERS : Z.
Variable simple_cycles : GraphAnalysis.DiGraph -> list (list string).
Variable betweenness_centrality : GraphAnalysis.DiGraph -> Z -> string -> Q.

Let run_full_detection :=
  RiskEngine.run_full_detection Model fit forest_predict decision_function
    kmeans_predict N_CLUSTERS simple_cycles betweenness_centrality.

Lemma run_full_detection_effect (sv : RiskEngine.Services Model) (db : Session) :
  let db' := snd (fst (run_full_detection sv db)) in
  let g := RiskEngine.graph (fst (fst (run_full_detection sv db))) in
  g = build_graph db /\
  transactions db' = transactions db /\
  alerts db' = alerts db ++ flat_map (alert_of db' g) (wallet_profiles db') /\
  RiskEngine.alerts_generated (snd (run_full_detection sv db))
  = Z.of_nat (length (flat_map (alert_of db' g) (wallet_profiles db'))).
Proof.
  unfold run_full_detection, RiskEngine.run_full_detection.
  destruct (MLEngine.train Model fit N_CLUSTERS (RiskEngine.ml_engine sv) db)
    as [ml1 train_result].
  destruct (MLEngine.predict Model fit forest_predict decision_function
              kmeans_predict N_CLUSTERS ml1 db) as [ml2 predictions].
  set (db1 := MLEngine.update_wallet_profiles db predictions).
  assert (T1 : transactions db1 = transactions db) by reflexivity.
  assert (A1 : alerts db1 = alerts db) by reflexivity.
  set (g := GraphAnalysis.build_graph db1).
  assert (G : g = build_graph db) by (apply build_graph_transactions, T1).
  pose proof (fold_score_profile g (wallet_profiles db1) db1 0%Z) as F.
  destruct (fold_left (RiskEngine.score_profile g) (wallet_profiles db1)
              (db1, 0%Z)) as [db' n].
  destruct F as (Ft & Fp & Fa & Fn). cbv zeta.
  cbn [fst snd RiskEngine.graph RiskEngine.alerts_generated].
  assert (E : flat_map (alert_of db' g) (wallet_profiles db')
              = flat_map (alert_of db1 g) (wallet_profiles db1)).
  { rewrite Fp. apply flat_map_ext. intro p. now apply alert_of_inputs. }
  rewrite E. split; [exact G|]. split; [congruence|].
  split; [congruence|]. rewrite Fn. lia.
Qed.

End PipelineEffect.



(** ** Normalisation of the anomaly scores *)

Lemma fold_min_le xs : forall a,
  fold_left min xs a <= a /\ forall x, In x xs -> fold_left min xs a <= x.
Proof.
  induction xs as [|y ys IH]; intro a; cbn [fold_left].
  - split; [apply Qle_refl|intros x []].
  - destruct (IH (min a y)) as [A B]. split.
    + eapply Qle_trans; [exact A|apply min_le_l].
    + intros x [<-|I]; [|now apply B].
      eapply Qle_trans; [exact A|apply min_le_r].
Qed.

Lemma fold_max_ge xs : forall a,
  a <= fold_left max xs a /\ forall x, In x xs -> x <= fold_left max xs a.
Proof.
  induction xs as [|y ys IH]; intro a; cbn [fold_left].
  - split; [apply Qle_refl|intros x []].
  - destruct (IH (max a y)) as [A B]. split.
    + eapply Qle_trans; [apply max_ge_l|exact A].
    + intros x [<-|I]; [|now apply B].
      eapply Qle_trans; [apply max_ge_r|exact A].
Qed.

Lemma minimum_le l x : In x l -> MLEngine.minimum l <= x.
Proof.
  destruct l as [|a xs]; [intros []|]. unfold MLEngine.minimum.
  destruct (fold_min_le xs a) as [A B]. intros [<-|I]; auto.
Qed.

Lemma maximum_ge l x : In x l -> x <= MLEngine.maximum l.
Proof.
  destruct l as [|a xs]; [intros []|]. unfold MLEngine.maximum.
  destruct (fold_max_ge xs a) as [A B]. intros [<-|I]; auto.
Qed.

Lemma clip_range x : 0 <= MLEngine.clip x /\ MLEngine.clip x <= 100.
Proof.
  unfold MLEngine.clip. split; [|apply min_le_r].
  apply min_glb; [apply max_ge_r|lra].
Qed.

Lemma clip_inside x : 0 <= x -> x <= 100 -> MLEngine.clip x == x.
Proof.
  intros A B. unfold MLEngine.clip.
  destruct (max_spec x 0) as [[L ->]|[L ->]]; [lra|].
  destruct (min_spec x 100) as [[L' ->]|[L' ->]]; [lra|reflexivity].
Qed.

Lemma normalized_entry l r :
  In r l ->
  let lo := MLEngine.minimum l in
  let hi := MLEngine.maximum l in
  let range := if negb (eqb hi lo) then hi - lo else 1 in
  MLEngine.clip ((hi - r) / range * 100)
  == (if eqb hi lo then 0 else (hi - r) / (hi - lo) * 100).
Proof.
  intros I lo hi range.
  pose proof (minimum_le l r I) as A. pose proof (maximum_ge l r I) as B.
  fold lo in A. fold hi in B. unfold range, eqb.
  destruct (Qeq_bool hi lo) eqn:E; cbn [negb].
  - apply Qeq_bool_iff in E.
    assert (Z : (hi - r) / 1 * 100 == 0) by (field_simplify; lra).
    eapply Qeq_trans; [apply clip_inside; lra|exact Z].
  - apply Qeq_bool_neq in E.
    assert (P : 0 < hi - lo) by lra.
    apply clip_inside.
    + apply Qmult_le_0_compat; [|lra]. apply Qdiv_nonneg; lra.
    + assert (U : (hi - r) / (hi - lo) <= 1).
      { apply Qle_shift_div_r; [exact P|lra]. }
      nra.
Qed.

(** X14: the normalisation in [predict] yields one score per raw decision
    value, each between 0 and 100; when all raw values are equal every
    score is 0; otherwise the score is (max - raw) / (max - min) * 100, the
    clipping never changes it, the lowest raw value gets 100 and the
    highest gets 0. *)
Theorem normalized_scores_range (anomaly_scores_raw : list Q) :
  let scores := MLEngine.normalize anomaly_scores_raw in
  let lo := MLEngine.minimum anomaly_scores_raw in
  let hi := MLEngine.maximum anomaly_scores_raw in
  length scores = length anomaly_scores_raw /\
  (forall s, In s scores -> 0 <= s /\ s <= 100) /\
  (forall i, (i < length anomaly_scores_raw)%nat ->
     let r := nth i anomaly_scores_raw 0 in
     let s := nth i scores 0 in
     (hi == lo -> s == 0) /\
     (~ hi == lo -> s == (hi - r) / (hi - lo) * 100) /\
     (~ hi == lo -> r == lo -> s == 100) /\
     (r == hi -> s == 0)).
Proof.
  intros scores lo hi.
  set (range := if negb (eqb hi lo) then hi - lo else 1).
  split; [apply length_map|]. split.
  - intros s I. apply in_map_iff in I. destruct I as (r & <- & _).
    apply clip_range.
  - intros i L r s.
    assert (I : In r anomaly_scores_raw) by (apply nth_In; exact L).
    assert (E : s == (if eqb hi lo then 0 else (hi - r) / (hi - lo) * 100)).
    { unfold s, scores, MLEngine.normalize. fold lo. fold hi. fold range.
      rewrite (nth_indep _ 0 (MLEngine.clip ((hi - 0) / range * 100)))
        by (rewrite length_map; exact L).
      rewrite (map_nth (fun r => MLEngine.clip ((hi - r) / range * 100))).
      apply (normalized_entry anomaly_scores_raw r I). }
    unfold eqb in E.
    destruct (Qeq_bool hi lo) eqn:B.
    + apply Qeq_bool_iff in B. repeat split; intros; try contradiction; exact E.
    + apply Qeq_bool_neq in B. split; [intro; contradiction|].
      split; [intro; exact E|]. split.
      * intros _ R. rewrite E, R. field. lra.
      * intro R. rewrite E.
        assert (Z : hi - r == 0) by lra. rewrite Z. unfold Qdiv. lra.
Qed.

(** ** Feature extraction, per wallet *)

Lemma collect_step_data wd tx w :
  let d := WalletTotals.data_or_new wd w in
  let d' := WalletTotals.data_or_new (MLEngine.collect_step wd tx) w in
  let v := Transaction.value_eth tx in
  MLEngine.sent_values d'
  = MLEngine.sent_values d ++ (if WalletTotals.sent_by w tx then [v] else []) /\
  MLEngine.received_values d'
  = MLEngine.received_values d
    ++ (if WalletTotals.received_by w tx then [v] else []) /\
  length (MLEngine.timestamps d')
  = (length (MLEngine.timestamps d)
     + (if WalletTotals.sent_by w tx then 1 else 0)
     + (if WalletTotals.received_by w tx then 1 else 0))%nat.
Proof.
  unfold WalletTotals.data_or_new, MLEngine.collect_step,
    WalletTotals.sent_by, WalletTotals.received_by, FlashTotals.receives.
  destruct (Transaction.receiver tx) as [r|] eqn:R.
  - destruct (String.eqb_spec r w) as [->|Nr];
      destruct (String.eqb_spec (Transaction.from_address tx) w) as [Es|Ns];
      unfold Dict.get_default;
      repeat (first
        [ rewrite (get_update_same String.eqb string_eqb_eq)
        | rewrite (get_update_other String.eqb string_eqb_eq) by congruence
        | rewrite Es ];
        unfold Dict.get_default);
      destruct (Dict.get String.eqb wd w);
      cbn [MLEngine.sent_values MLEngine.received_values MLEngine.timestamps
           MLEngine.record_sent MLEngine.record_received MLEngine.new_data];
      rewrite ?app_nil_r, ?length_app; cbn [length app];
      repeat split; try reflexivity; lia.
  - destruct (String.eqb_spec (Transaction.from_address tx) w) as [Es|Ns];
      unfold Dict.get_default;
      repeat (first
        [ rewrite (get_update_same String.eqb string_eqb_eq)
        | rewrite (get_update_other String.eqb string_eqb_eq) by congruence
        | rewrite Es ];
        unfold Dict.get_default);
      destruct (Dict.get String.eqb wd w);
      cbn [MLEngine.sent_values MLEngine.received_values MLEngine.timestamps
           MLEngine.record_sent MLEngine.record_received MLEngine.new_data];
      rewrite ?app_nil_r, ?length_app; cbn [length app];
      repeat split; try reflexivity; lia.
Qed.

Lemma collect_fold_data txs : forall wd w,
  let d := WalletTotals.data_or_new wd w in
  let d' := WalletTotals.data_or_new
              (fold_left MLEngine.collect_step txs wd) w in
  MLEngine.sent_values d' = MLEngine.sent_values d ++ WalletTotals.sent txs w /\
  MLEngine.received_values d'
  = MLEngine.received_values d ++ WalletTotals.received txs w /\
  length (MLEngine.timestamps d')
  = (length (MLEngine.timestamps d) + length (WalletTotals.sent txs w)
     + length (WalletTotals.received txs w))%nat.
Proof.
  induction txs as [|tx txs IH]; intros wd w; cbv zeta.
  - cbn [fold_left]. unfold WalletTotals.sent, WalletTotals.received.
    cbn [filter map length]. rewrite !app_nil_r. repeat split; lia.
  - cbn [fold_left].
    destruct (IH (MLEngine.collect_step wd tx) w) as (A & B & C).
    destruct (collect_step_data wd tx w) as (A' & B' & C').
    rewrite A, B, C, A', B', C'.
    unfold WalletTotals.sent, WalletTotals.received. cbn [filter].
    destruct (WalletTotals.sent_by w tx);
      destruct (WalletTotals.received_by w tx);
      cbn [map length]; rewrite <- ?app_assoc; cbn [app];
      rewrite ?app_nil_r; repeat split; lia.
Qed.

Lemma collect_step_keys wd tx w :
  In w (Dict.keys (MLEngine.collect_step wd tx)) <->
  In w (Dict.keys wd) \/ Transaction.from_address tx = w
  \/ Transaction.receiver tx = Some w.
Proof.
  unfold MLEngine.collect_step.
  destruct (Transaction.receiver tx) as [r|];
    rewrite ?(In_keys_update String.eqb string_eqb_eq).
  - split.
    + intros [->|[->|H]]; auto.
    + intros [H|[<-|H]]; auto. injection H as ->. auto.
  - split.
    + intros [->|H]; auto.
    + intros [H|[<-|H]]; auto. discriminate.
Qed.

Lemma collect_fold_keys txs : forall wd w,
  In w (Dict.keys (fold_left MLEngine.collect_step txs wd)) <->
  In w (Dict.keys wd) \/
  exists tx, In tx txs /\ (Transaction.from_address tx = w
                           \/ Transaction.receiver tx = Some w).
Proof.
  induction txs as [|tx txs IH]; intros wd w; cbn [fold_left].
  - split; [auto|]. intros [H|(tx & [] & _)]. exact H.
  - rewrite IH, collect_step_keys. split.
    + intros [[H|H]|(tx' & I & H)]; auto.
      * right. exists tx. split; [now left|exact H].
      * right. exists tx'. split; [now right|exact H].
    + intros [H|(tx' & [<-|I] & H)]; auto.
      right. exists tx'. auto.
Qed.

Lemma filter_length_perm {A : Type} (f : A -> bool) (l l' : list A) :
  Permutation l l' -> length (filter f l) = length (filter f l').
Proof.
  induction 1 as [|x l l' P IH|x y l|l l' l'' P IH P' IH']; cbn [filter].
  - reflexivity.
  - destruct (f x); cbn [length]; congruence.
  - destruct (f x), (f y); reflexivity.
  - congruence.
Qed.

Lemma extract_features_collect db :
  MLEngine.extract_features db
  = map (fun '(addr, data) => MLEngine.profile_of addr data)
      (MLEngine.collect (order_by_timestamp (transactions db))).
Proof.
  unfold MLEngine.extract_features.
  now destruct (order_by_timestamp (transactions db)).
Qed.

Lemma participant_counted w txs tx :
  In tx txs ->
  Transaction.from_address tx = w \/ Transaction.receiver tx = Some w ->
  (1 <= length (filter (WalletTotals.sent_by w) txs)
        + length (filter (WalletTotals.received_by w) txs))%nat.
Proof.
  intros I [H|H].
  - assert (F : In tx (filter (WalletTotals.sent_by w) txs)).
    { apply filter_In. split; [exact I|].
      unfold WalletTotals.sent_by. now apply String.eqb_eq. }
    destruct (filter (WalletTotals.sent_by w) txs); [destruct F|].
    cbn [length]. lia.
  - assert (F : In tx (filter (WalletTotals.received_by w) txs)).
    { apply filter_In. split; [exact I|].
      unfold WalletTotals.received_by, FlashTotals.receives. rewrite H.
      now apply String.eqb_eq. }
    destruct (filter (WalletTotals.received_by w) txs); [destruct F|].
    cbn [length]. lia.
Qed.

(** X15: [extract_features] makes one profile per wallet that sends or
    receives a stored transaction, and no other.  The profile's [tx_count]
    is the number of transactions the wallet sent plus the number it
    received, so at least 1, and a transfer of a wallet to itself counts
    twice; the totals are the sums of the sent and of the received values
    in timestamp order; the average divides their sum by [tx_count]; the
    frequency is 0 for a single transaction and otherwise positive and at
    most 100 times [tx_count]. *)
Theorem extract_features_per_wallet (db : Session) :
  let txs := order_by_timestamp (transactions db) in
  let profiles := MLEngine.extract_features db in
  NoDup (MLEngine.addresses profiles) /\
  (forall a, In a (MLEngine.addresses profiles) <->
     exists tx, In tx (transactions db) /\
       (Transaction.from_address tx = a \/ Transaction.receiver tx = Some a)) /\
  (forall p, In p profiles ->
     let a := MLEngine.address p in
     MLEngine.tx_count p
     = (Z.of_nat (length (filter (WalletTotals.sent_by a) (transactions db)))
        + Z.of_nat (length (filter (WalletTotals.received_by a)
                              (transactions db))))%Z /\
     (1 <= MLEngine.tx_count p)%Z /\
     MLEngine.total_value_sent p = MLEngine.sum (WalletTotals.sent txs a) /\
     MLEngine.total_value_received p
     = MLEngine.sum (WalletTotals.received txs a) /\
     MLEngine.avg_value p
     = (MLEngine.total_value_sent p + MLEngine.total_value_received p)
       / inject_Z (MLEngine.tx_count p) /\
     ((MLEngine.tx_count p < 2)%Z -> MLEngine.tx_frequency p = 0) /\
     ((2 <= MLEngine.tx_count p)%Z ->
      0 < MLEngine.tx_frequency p /\
      MLEngine.tx_frequency p <= 100 * inject_Z (MLEngine.tx_count p))).
Proof.
  intros txs profiles.
  assert (P : Permutation txs (transactions db)) by apply sort_perm.
  assert (K : forall a, In a (Dict.keys (MLEngine.collect txs)) <->
     exists tx, In tx (transactions db) /\
       (Transaction.from_address tx = a \/ Transaction.receiver tx = Some a)).
  { intro a. unfold MLEngine.collect. rewrite collect_fold_keys. split.
    - intros [[]|(tx & I & H)]. exists tx. split; [|exact H].
      now apply (Permutation_in _ P).
    - intros (tx & I & H). right. exists tx. split; [|exact H].
      now apply (Permutation_in _ (Permutation_sym P)). }
  assert (A : MLEngine.addresses profiles = Dict.keys (MLEngine.collect txs)).
  { unfold profiles, MLEngine.addresses. rewrite extract_features_collect.
    rewrite map_map. unfold Dict.keys. apply map_ext. now intros [a d]. }
  split; [apply extract_features_addresses|]. split.
  - intro a. rewrite A. apply K.
  - intros p I a. unfold profiles in I. rewrite extract_features_collect in I.
    apply in_map_iff in I. destruct I as ([addr data] & E & I).
    assert (Ia : In addr (Dict.keys (MLEngine.collect txs))).
    { unfold Dict.keys. apply in_map_iff. now exists (addr, data). }
    apply (In_get String.eqb string_eqb_eq _ _ _ (collect_NoDup txs)) in I.
    destruct (collect_fold_data txs [] addr) as (S & R & T).
    fold (MLEngine.collect txs) in S, R, T.
    unfold WalletTotals.data_or_new, Dict.get_default in S, R, T.
    rewrite I in S, R, T.
    cbn [Dict.get MLEngine.new_data MLEngine.sent_values
         MLEngine.received_values MLEngine.timestamps app length] in S, R, T.
    apply K in Ia. destruct Ia as (tx & Itx & H).
    pose proof (participant_counted addr _ tx Itx H) as C.
    assert (Ls : length (WalletTotals.sent txs addr)
                 = length (filter (WalletTotals.sent_by addr) (transactions db))).
    { unfold WalletTotals.sent. rewrite length_map.
      now apply filter_length_perm. }
    assert (Lr : length (WalletTotals.received txs addr)
                 = length (filter (WalletTotals.received_by addr)
                             (transactions db))).
    { unfold WalletTotals.received. rewrite length_map.
      now apply filter_length_perm. }
    unfold a. subst p. unfold MLEngine.profile_of.
    cbn [MLEngine.address MLEngine.tx_count MLEngine.total_value_sent
         MLEngine.total_value_received MLEngine.avg_value
         MLEngine.tx_frequency].
    rewrite T, S, R, Ls, Lr.
    set (ns := length (filter (WalletTotals.sent_by addr) (transactions db))) in *.
    set (nr := length (filter (WalletTotals.received_by addr)
                         (transactions db))) in *.
    split; [reflexivity|]. split; [lia|]. split; [reflexivity|].
    split; [reflexivity|]. split; [now rewrite Z.max_l by lia|].
    destruct (Z.leb_spec 2 (Z.of_nat (0 + ns + nr))) as [G|G].
    + split; [intro; lia|]. intros _.
      set (span := max _ (1 # 100)).
      assert (Sp : 1 # 100 <= span) by apply max_ge_r.
      assert (Tc : 2 <= inject_Z (Z.of_nat ns + Z.of_nat nr)).
      { change 2 with (inject_Z 2). rewrite <- Zle_Qle. lia. }
      split.
      * apply Qlt_shift_div_l; lra.
      * apply Qle_shift_div_r; [lra|]. nra.
    + split; [reflexivity|]. intro; lia.
Qed.

(** ** Training and inference *)

Lemma normalize_In_range l s :
  In s (MLEngine.normalize l) -> 0 <= s /\ s <= 100.
Proof.
  unfold MLEngine.normalize. intro I. apply in_map_iff in I.
  destruct I as (r & <- & _). apply clip_range.
Qed.

Lemma map_snd_combine_seq {A : Type} (l : list A) : forall s,
  map snd (combine (seq s (length l)) l) = l.
Proof.
  induction l as [|x l IH]; intro s; cbn [length seq combine map snd].
  - reflexivity.
  - now rewrite IH.
Qed.

Section Inference.
Variable Model : Type.
Variable fit : list (list Q) -> Z -> Model.
Variable forest_predict : Model -> list (list Q) -> list Z.
Variable decision_function : Model -> list (list Q) -> list Q.
Variable kmeans_predict : Model -> list (list Q) -> list Z.
Variable N_CLUSTERS : Z.

Let train := MLEngine.train Model fit N_CLUSTERS.
Let predict :=
  MLEngine.predict Model fit forest_predict decision_function kmeans_predict
    N_CLUSTERS.

Lemma predict_with_raw m profiles :
  map MLEngine.raw
    (MLEngine.predict_with Model forest_predict decision_function
       kmeans_predict m profiles) = profiles.
Proof.
  unfold MLEngine.predict_with. rewrite map_map.
  transitivity (map snd (combine (seq 0 (length profiles)) profiles));
    [|apply map_snd_combine_seq].
  apply map_ext. now intros [i p].
Qed.

Lemma predict_with_score m profiles pred :
  In pred (MLEngine.predict_with Model forest_predict decision_function
             kmeans_predict m profiles) ->
  0 <= MLEngine.anomaly_score pred /\ MLEngine.anomaly_score pred <= 100 /\
  decimals 2 (MLEngine.anomaly_score pred).
Proof.
  unfold MLEngine.predict_with. intro I. apply in_map_iff in I.
  destruct I as ([i p] & <- & _). cbn [MLEngine.anomaly_score].
  set (scores := MLEngine.normalize _).
  assert (R : 0 <= nth i scores 0 /\ nth i scores 0 <= 100).
  { destruct (nth_in_or_default i scores 0) as [I | ->]; [|lra].
    now apply normalize_In_range in I. }
  destruct R as [R0 R1]. split; [now apply round_nonneg|].
  split; [now apply (round_le_Z _ 100)|apply round_decimals].
Qed.

(** X16: with at least 5 wallets, [train] fits the estimators anew on the
    feature matrix with min(N_CLUSTERS, wallets) clusters and reports
    "trained"; [predict] leaves a trained engine as it is and trains an
    untrained one first, and returns one prediction per wallet, in the
    order of the profiles and carrying them, each with an anomaly score
    between 0 and 100 with 2 decimals. *)
Theorem predict_scores_every_wallet (self : option Model) (db : Session)
  (Enough : (5 <= Z.of_nat (length (MLEngine.addresses
                                      (MLEngine.extract_features db))))%Z) :
  let profiles := MLEngine.extract_features db in
  let n := Z.of_nat (length (MLEngine.addresses profiles)) in
  let fitted := fit (MLEngine.feature_matrix profiles) (Z.min N_CLUSTERS n) in
  train self db
  = (Some fitted, MLEngine.mkTrain "trained" n (Some (Z.min N_CLUSTERS n))) /\
  (forall m, self = Some m -> fst (predict self db) = Some m) /\
  (self = None -> fst (predict self db) = Some fitted) /\
  map MLEngine.raw (snd (predict self db)) = profiles /\
  length (snd (predict self db)) = length (MLEngine.addresses profiles) /\
  (forall pred, In pred (snd (predict self db)) ->
     0 <= MLEngine.anomaly_score pred /\ MLEngine.anomaly_score pred <= 100 /\
     decimals 2 (MLEngine.anomaly_score pred)).
Proof.
  intros profiles n fitted.
  assert (F : (n <? 5)%Z = false) by (apply Z.ltb_ge; exact Enough).
  assert (T : forall s, train s db
    = (Some fitted, MLEngine.mkTrain "trained" n (Some (Z.min N_CLUSTERS n)))).
  { intro s. unfold train, MLEngine.train. fold profiles. fold n.
    now rewrite F. }
  assert (P : exists m, predict self db
    = (Some m, MLEngine.predict_with Model forest_predict decision_function
                 kmeans_predict m profiles) /\
    (forall m', self = Some m' -> m = m') /\ (self = None -> m = fitted)).
  { unfold predict, MLEngine.predict. fold profiles. fold n. rewrite F.
    destruct self as [m|]; cbn [MLEngine.is_trained].
    - exists m. split; [reflexivity|]. split; [congruence|discriminate].
    - fold train. rewrite (T None). cbn [fst]. exists fitted.
      split; [reflexivity|]. split; [discriminate|reflexivity]. }
  destruct P as (m & -> & Pm & Pn). cbn [fst snd].
  split; [apply T|]. split; [intros m' E; now rewrite (Pm m' E)|].
  split; [intro E; now rewrite (Pn E)|].
  split; [apply predict_with_raw|]. split.
  - unfold MLEngine.addresses. rewrite length_map.
    rewrite <- (predict_with_raw m profiles) at 2. now rewrite length_map.
  - apply predict_with_score.
Qed.
End Inference.

Lemma predict_scores_every_wallet_witness :
  map MLEngine.raw
    (snd (MLEngine.predict unit (fun _ _ => tt) Samples.no_labels
            Samples.no_values Samples.no_labels 3 None Samples.five_wallets))
  = MLEngine.extract_features Samples.five_wallets.
Proof.
  destruct (predict_scores_every_wallet unit (fun _ _ => tt) Samples.no_labels
              Samples.no_values Samples.no_labels 3 None Samples.five_wallets)
    as (_ & _ & _ & R & _).
  - vm_compute. discriminate.
  - exact R.
Defined.

(** ** Storing the predictions *)

Lemma upsert_profile_find rows row :
  find (fun p => String.eqb (WalletProfile.address p)
                   (WalletProfile.address row))
    (MLEngine.upsert_profile rows row) = Some row.
Proof.
  induction rows as [|r rows IH]; cbn [MLEngine.upsert_profile find].
  - now rewrite String.eqb_refl.
  - destruct (String.eqb (WalletProfile.address r)
                (WalletProfile.address row)) eqn:E; cbn [find].
    + now rewrite String.eqb_refl.
    + now rewrite E.
Qed.

Lemma upsert_profile_other rows row a :
  a <> WalletProfile.address row ->
  find (fun p => String.eqb (WalletProfile.address p) a)
    (MLEngine.upsert_profile rows row)
  = find (fun p => String.eqb (WalletProfile.address p) a) rows.
Proof.
  intro N. assert (Nb : String.eqb (WalletProfile.address row) a = false).
  { apply String.eqb_neq. congruence. }
  induction rows as [|r rows IH]; cbn [MLEngine.upsert_profile find].
  - now rewrite Nb.
  - destruct (String.eqb (WalletProfile.address r)
                (WalletProfile.address row)) eqn:E; cbn [find].
    + apply String.eqb_eq in E. rewrite Nb. rewrite E, Nb. reflexivity.
    + now rewrite IH.
Qed.

Lemma upsert_profile_addresses rows row :
  map WalletProfile.address (MLEngine.upsert_profile rows row)
  = if existsb (fun p => String.eqb (WalletProfile.address p)
                           (WalletProfile.address row)) rows
    then map WalletProfile.address rows
    else map WalletProfile.address rows ++ [WalletProfile.address row].
Proof.
  induction rows as [|r rows IH]; cbn [MLEngine.upsert_profile existsb map app].
  - reflexivity.
  - destruct (String.eqb (WalletProfile.address r)
                (WalletProfile.address row)) eqn:E; cbn [orb map].
    + apply String.eqb_eq in E. now rewrite E.
    + rewrite IH. now destruct (existsb _ rows).
Qed.

Lemma upsert_profile_NoDup rows row :
  NoDup (map WalletProfile.address rows) ->
  NoDup (map WalletProfile.address (MLEngine.upsert_profile rows row)).
Proof.
  intro ND. rewrite upsert_profile_addresses.
  destruct (existsb _ rows) eqn:E; [exact ND|].
  apply NoDup_app; [exact ND|repeat constructor; intros []|].
  intros a Ia [<-|[]].
  apply in_map_iff in Ia. destruct Ia as (p & Ep & Ip).
  assert (X : existsb (fun p => String.eqb (WalletProfile.address p)
                                  (WalletProfile.address row)) rows = true).
  { apply existsb_exists. exists p. split; [exact Ip|].
    now apply String.eqb_eq. }
  congruence.
Qed.

Lemma upsert_profile_length rows row :
  (length rows <= length (MLEngine.upsert_profile rows row) <= length rows + 1)%nat.
Proof.
  rewrite <- !(length_map WalletProfile.address), upsert_profile_addresses.
  destruct (existsb _ rows); rewrite ?length_app; cbn [length]; lia.
Qed.

Lemma fold_upsert_other predictions a : forall rows,
  ~ In a (map (fun pred => MLEngine.address (MLEngine.raw pred)) predictions) ->
  find (fun p => String.eqb (WalletProfile.address p) a)
    (fold_left (fun rows pred =>
                  MLEngine.upsert_profile rows (MLEngine.profile_row pred))
       predictions rows)
  = find (fun p => String.eqb (WalletProfile.address p) a) rows.
Proof.
  induction predictions as [|pred rest IH]; intros rows N; cbn [fold_left].
  - reflexivity.
  - cbn [map In] in N. rewrite IH by tauto.
    apply upsert_profile_other. cbn [MLEngine.profile_row WalletProfile.address].
    intro E. apply N. now left.
Qed.

Lemma fold_upsert_invariants predictions : forall rows,
  let rows' := fold_left (fun rows pred =>
                   MLEngine.upsert_profile rows (MLEngine.profile_row pred))
                 predictions rows in
  (NoDup (map WalletProfile.address rows) ->
   NoDup (map WalletProfile.address rows')) /\
  (length rows <= length rows' <= length rows + length predictions)%nat.
Proof.
  induction predictions as [|pred rest IH]; intro rows; cbn [fold_left length].
  - split; [auto|lia].
  - destruct (IH (MLEngine.upsert_profile rows (MLEngine.profile_row pred)))
      as [A B].
    pose proof (upsert_profile_length rows (MLEngine.profile_row pred)).
    split; [|lia]. intro ND. apply A. now apply upsert_profile_NoDup.
Qed.

(** X17: [update_wallet_profiles], given predictions for distinct wallets,
    leaves every profile of another wallet, the transactions, the risk
    scores and the alerts as they are; afterwards the profile found for a
    predicted wallet holds that prediction, its risk score being the
    anomaly score; no row is lost, at most one is added per prediction, and
    addresses that were distinct stay distinct. *)
Theorem update_wallet_profiles_upserts (db : Session)
  (predictions : list MLEngine.Prediction)
  (Distinct : NoDup (map (fun pred => MLEngine.address (MLEngine.raw pred))
                       predictions)) :
  let db' := MLEngine.update_wallet_profiles db predictions in
  transactions db' = transactions db /\
  risk_scores db' = risk_scores db /\
  alerts db' = alerts db /\
  (forall pred, In pred predictions ->
     RiskEngine.find_profile db' (MLEngine.address (MLEngine.raw pred))
     = Some (MLEngine.profile_row pred) /\
     RiskEngine.ml_score_of db' (MLEngine.address (MLEngine.raw pred))
     = MLEngine.anomaly_score pred) /\
  (forall a,
     ~ In a (map (fun pred => MLEngine.address (MLEngine.raw pred)) predictions) ->
     RiskEngine.find_profile db' a = RiskEngine.find_profile db a) /\
  (NoDup (map WalletProfile.address (wallet_profiles db)) ->
   NoDup (map WalletProfile.address (wallet_profiles db'))) /\
  (length (wallet_profiles db) <= length (wallet_profiles db')
   <= length (wallet_profiles db) + length predictions)%nat.
Proof.
  intro db'. unfold db', MLEngine.update_wallet_profiles, RiskEngine.find_profile.
  cbn [transactions risk_scores alerts wallet_profiles].
  split; [reflexivity|]. split; [reflexivity|]. split; [reflexivity|].
  destruct (fold_upsert_invariants predictions (wallet_profiles db)) as [A B].
  split; [|split; [|split; [exact A|exact B]]].
  - assert (G : forall pred, In pred predictions ->
       find (fun p => String.eqb (WalletProfile.address p)
                        (MLEngine.address (MLEngine.raw pred)))
         (fold_left (fun rows pred =>
                       MLEngine.upsert_profile rows (MLEngine.profile_row pred))
            predictions (wallet_profiles db))
       = Some (MLEngine.profile_row pred)).
    { clear A B db'. revert Distinct. generalize (wallet_profiles db).
      induction predictions as [|pred0 rest IH]; intros rows ND pred I;
        [destruct I|].
      cbn [fold_left]. cbn [map] in ND. inversion ND as [|x l Nin ND' E]; subst.
      destruct I as [<-|I].
      - rewrite fold_upsert_other by exact Nin.
        apply (upsert_profile_find rows (MLEngine.profile_row pred0)).
      - now apply IH. }
    intros pred I. split; [now apply G|].
    unfold RiskEngine.ml_score_of, RiskEngine.find_profile.
    cbn [wallet_profiles]. now rewrite (G pred I).
  - intros a N. now apply fold_upsert_other.
Qed.

Lemma update_wallet_profiles_upserts_witness :
  RiskEngine.find_profile
    (MLEngine.update_wallet_profiles Samples.scenario_a
       [MLEngine.mkPrediction (MLEngine.mkRaw "A" 2 10 10 10 1 1 0 2) false 40 0])
    "A"
  = Some (WalletProfile.mk "A" 2 10 10 10 1 1 0 2 0 40).
Proof.
  destruct (update_wallet_profiles_upserts Samples.scenario_a
              [MLEngine.mkPrediction (MLEngine.mkRaw "A" 2 10 10 10 1 1 0 2)
                 false 40 0]) as (_ & _ & _ & F & _).
  - repeat constructor. intros [].
  - exact (proj1 (F _ (or_introl eq_refl))).
Defined.

(** ** Storing transactions *)

Lemma is_new_spec db tx :
  Blockchain.is_new db tx = true <->
  ~ In (Transaction.tx_hash tx) (map Transaction.tx_hash (transactions db)).
Proof.
  unfold Blockchain.is_new, Blockchain.find_hash.
  destruct (find _ (transactions db)) as [row|] eqn:F.
  - apply find_some in F. destruct F as [I E]. apply String.eqb_eq in E.
    split; [discriminate|]. intro N. exfalso. apply N. rewrite <- E.
    now apply in_map.
  - split; [|reflexivity]. intros _ I. apply in_map_iff in I.
    destruct I as (row & E & I).
    apply (find_none _ _ F) in I. apply String.eqb_neq in I. contradiction.
Qed.

Lemma add_step_is_new db st tx :
  Blockchain.add_step db st tx
  = if Blockchain.is_new db tx then (fst st ++ [tx], (snd st + 1)%Z) else st.
Proof.
  unfold Blockchain.add_step, Blockchain.is_new.
  now destruct (Blockchain.find_hash db (Transaction.tx_hash tx)).
Qed.

Lemma fold_add_step db tx_list : forall pending stored,
  fold_left (Blockchain.add_step db) tx_list (pending, stored)
  = (pending ++ filter (Blockchain.is_new db) tx_list,
     (stored + Z.of_nat (length (filter (Blockchain.is_new db) tx_list)))%Z).
Proof.
  induction tx_list as [|tx rest IH]; intros pending stored;
    cbn [fold_left filter].
  - cbn [length]. rewrite app_nil_r. f_equal. lia.
  - rewrite add_step_is_new. destruct (Blockchain.is_new db tx); cbn [fst snd].
    + rewrite IH, <- app_assoc. cbn [app length]. f_equal. lia.
    + apply IH.
Qed.

Lemma filter_none {A : Type} (f : A -> bool) (l : list A) :
  (forall x, In x l -> f x = false) -> filter f l = [].
Proof.
  induction l as [|x l IH]; intro H; cbn [filter]; [reflexivity|].
  rewrite (H x (or_introl eq_refl)). apply IH. intros y I. apply H. now right.
Qed.

Section StoreFacts.
Variable accepts : list Transaction.t -> list Transaction.t -> bool.
(** The unique index on [tx_hash]: rows are only taken when no hash of the
    table is repeated afterwards. *)
Hypothesis accepts_unique : forall rows pending,
  accepts rows pending = true ->
  NoDup (map Transaction.tx_hash (rows ++ pending)).

Let store_transactions := Blockchain.store_transactions accepts.

Lemma store_transactions_cases db tx_list :
  let fresh := filter (Blockchain.is_new db) tx_list in
  store_transactions db tx_list
  = match fresh with
    | [] => (db, 0%Z)
    | _ :: _ =>
        if accepts (transactions db) fresh
        then (mkSession (transactions db ++ fresh) (wallet_profiles db)
                (risk_scores db) (alerts db), Z.of_nat (length fresh))
        else (db, 0%Z)
    end.
Proof.
  intro fresh. unfold store_transactions, Blockchain.store_transactions.
  rewrite fold_add_step. fold fresh. cbn [app Z.add].
  unfold Blockchain.commit.
  destruct fresh as [|tx rest]; [reflexivity|].
  assert (P : (0 <? Z.of_nat (length (tx :: rest)))%Z = true).
  { apply Z.ltb_lt. cbn [length]. lia. }
  rewrite P. now destruct (accepts (transactions db) (tx :: rest)).
Qed.

Lemma store_transactions_effect db tx_list :
  let fresh := filter (Blockchain.is_new db) tx_list in
  let db' := fst (store_transactions db tx_list) in
  let stored := snd (store_transactions db tx_list) in
  (db' = db /\ stored = 0%Z /\
   (fresh = [] \/ accepts (transactions db) fresh = false)) \/
  (db' = mkSession (transactions db ++ fresh) (wallet_profiles db)
           (risk_scores db) (alerts db) /\
   stored = Z.of_nat (length fresh) /\ (0 < stored)%Z /\
   accepts (transactions db) fresh = true).
Proof.
  cbv zeta. rewrite store_transactions_cases.
  destruct (filter (Blockchain.is_new db) tx_list) as [|tx rest] eqn:F.
  - left. auto.
  - destruct (accepts (transactions db) (tx :: rest)) eqn:A; cbn [fst snd].
    + right. split; [reflexivity|]. split; [reflexivity|].
      split; [cbn [length]; lia|reflexivity].
    + left. auto.
Qed.

(** X18: [store_transactions] either leaves the session as it is and
    returns 0, or appends to the table exactly the transactions of the list
    whose hash was not in the table, in their order, and returns their
    number.  The other tables are untouched; the table grows by the number
    returned; distinct hashes stay distinct; a list whose hashes are all
    stored, and a list that repeats a hash that is not stored, store
    nothing; storing the same list again stores nothing. *)
Theorem store_transactions_new_rows (db : Session)
  (tx_list : list Transaction.t) :
  let fresh := filter (Blockchain.is_new db) tx_list in
  let db' := fst (store_transactions db tx_list) in
  let stored := snd (store_transactions db tx_list) in
  (forall tx, In tx fresh <->
     In tx tx_list /\
     ~ In (Transaction.tx_hash tx)
          (map Transaction.tx_hash (transactions db))) /\
  ((db' = db /\ stored = 0%Z) \/
   (transactions db' = transactions db ++ fresh /\
    stored = Z.of_nat (length fresh))) /\
  (wallet_profiles db' = wallet_profiles db /\
   risk_scores db' = risk_scores db /\ alerts db' = alerts db) /\
  Z.of_nat (length (transactions db'))
  = (Z.of_nat (length (transactions db)) + stored)%Z /\
  (0 <= stored <= Z.of_nat (length tx_list))%Z /\
  (accepts (transactions db) fresh = true ->
   transactions db' = transactions db ++ fresh /\
   stored = Z.of_nat (length fresh)) /\
  (fresh = [] -> db' = db /\ stored = 0%Z) /\
  (~ NoDup (map Transaction.tx_hash fresh) -> db' = db /\ stored = 0%Z) /\
  (NoDup (map Transaction.tx_hash (transactions db)) ->
   NoDup (map Transaction.tx_hash (transactions db'))) /\
  store_transactions db' tx_list = (db', 0%Z).
Proof.
  intros fresh db' stored.
  assert (S : forall tx, In tx fresh <->
     In tx tx_list /\
     ~ In (Transaction.tx_hash tx)
          (map Transaction.tx_hash (transactions db))).
  { intro tx. unfold fresh. rewrite filter_In, is_new_spec. tauto. }
  assert (L : (length fresh <= length tx_list)%nat) by apply filter_length_le.
  split; [exact S|].
  destruct (store_transactions_effect db tx_list)
    as [(E & Z0 & C)|(E & Zs & P & A)].
  - fold fresh in C. fold db' in E. fold stored in Z0. rewrite E, Z0.
    split; [now left|]. split; [auto|]. split; [lia|]. split; [lia|].
    split.
    { intro A. destruct C as [C|C]; [|congruence].
      rewrite C, app_nil_r. split; reflexivity. }
    split; [auto|]. split; [auto|]. split; [auto|].
    rewrite store_transactions_cases. fold fresh.
    destruct C as [->|C]; [reflexivity|].
    destruct fresh; [reflexivity|]. now rewrite C.
  - fold fresh in E, Zs, A. fold db' in E. fold stored in Zs, P.
    rewrite E, Zs. cbn [transactions wallet_profiles risk_scores alerts].
    split; [right; auto|]. split; [auto|].
    split; [rewrite length_app; lia|]. split; [lia|]. split; [auto|].
    split; [intro N; rewrite N in Zs; cbn [length] in Zs; lia|].
    split.
    { intro N. exfalso. apply N. apply accepts_unique in A.
      rewrite map_app in A. now apply NoDup_app_remove_l in A. }
    split; [intros _; now apply accepts_unique|].
    rewrite store_transactions_cases.
    rewrite filter_none; [reflexivity|].
    intros tx I. destruct (Blockchain.is_new _ tx) eqn:N; [|reflexivity].
    exfalso. apply is_new_spec in N. apply N.
    cbn [transactions]. rewrite map_app. apply in_or_app.
    destruct (in_dec string_dec (Transaction.tx_hash tx)
                (map Transaction.tx_hash (transactions db))) as [D|D];
      [now left|right].
    apply in_map. apply S. auto.
Qed.
(** *** Ingestion of the latest blocks *)

Variable fetch_block_transactions : Z -> list Transaction.t.

Let ingest_step := Blockchain.ingest_step accepts fetch_block_transactions.
Let ingest_latest_blocks :=
  Blockchain.ingest_latest_blocks accepts fetch_block_transactions.

Lemma ingest_step_effect st b :
  let st' := ingest_step st b in
  (exists added,
     transactions (fst (fst st')) = transactions (fst (fst st)) ++ added /\
     snd st' = (snd st + Z.of_nat (length added))%Z /\
     (length added <= length (fetch_block_transactions b))%nat) /\
  snd (fst st')
  = (snd (fst st) + Z.of_nat (length (fetch_block_transactions b)))%Z /\
  wallet_profiles (fst (fst st')) = wallet_profiles (fst (fst st)) /\
  risk_scores (fst (fst st')) = risk_scores (fst (fst st)) /\
  alerts (fst (fst st')) = alerts (fst (fst st)) /\
  (NoDup (map Transaction.tx_hash (transactions (fst (fst st)))) ->
   NoDup (map Transaction.tx_hash (transactions (fst (fst st'))))).
Proof.
  destruct st as [[db t] s]. cbv zeta.
  unfold ingest_step, Blockchain.ingest_step.
  pose proof (store_transactions_effect db (fetch_block_transactions b)) as H.
  cbv zeta in H. unfold store_transactions in H.
  pose proof (filter_length_le (Blockchain.is_new db)
                (fetch_block_transactions b)) as L.
  destruct (Blockchain.store_transactions accepts db
              (fetch_block_transactions b)) as [db1 stored].
  cbn [fst snd] in *.
  destruct H as [(-> & -> & _)|(-> & -> & _ & A)].
  - split; [|auto]. exists []. rewrite app_nil_r. cbn [length].
    split; [reflexivity|]. split; lia.
  - cbn [transactions wallet_profiles risk_scores alerts].
    split; [eexists; split; [reflexivity|split; [reflexivity|exact L]]|].
    split; [reflexivity|]. split; [reflexivity|]. split; [reflexivity|].
    split; [reflexivity|]. intros _. now apply accepts_unique.
Qed.

Lemma ingest_fold_effect blocks : forall st,
  let st' := fold_left ingest_step blocks st in
  (exists added,
     transactions (fst (fst st')) = transactions (fst (fst st)) ++ added /\
     snd st' = (snd st + Z.of_nat (length added))%Z /\
     (length added
      <= length (flat_map fetch_block_transactions blocks))%nat) /\
  snd (fst st')
  = (snd (fst st)
     + Z.of_nat (length (flat_map fetch_block_transactions blocks)))%Z /\
  wallet_profiles (fst (fst st')) = wallet_profiles (fst (fst st)) /\
  risk_scores (fst (fst st')) = risk_scores (fst (fst st)) /\
  alerts (fst (fst st')) = alerts (fst (fst st)) /\
  (NoDup (map Transaction.tx_hash (transactions (fst (fst st)))) ->
   NoDup (map Transaction.tx_hash (transactions (fst (fst st'))))).
Proof.
  induction blocks as [|b blocks IH]; intro st; cbv zeta;
    cbn [fold_left flat_map].
  - cbn [length]. split; [|split; [lia|auto]]. exists [].
    rewrite app_nil_r. cbn [length]. split; [reflexivity|]. split; lia.
  - destruct (IH (ingest_step st b))
      as ((added2 & T2 & S2 & L2) & F2 & W2 & R2 & A2 & N2).
    destruct (ingest_step_effect st b)
      as ((added1 & T1 & S1 & L1) & F1 & W1 & R1 & A1 & N1).
    rewrite length_app. split.
    + exists (added1 ++ added2). rewrite T2, T1, S2, S1, app_assoc, length_app.
      split; [reflexivity|]. split; lia.
    + rewrite F2, F1, W2, W1, R2, R1, A2, A1.
      split; [lia|]. split; [reflexivity|]. split; [reflexivity|].
      split; [reflexivity|]. auto.
Qed.

Lemma block_range_spec latest n_blocks :
  let blocks := Blockchain.block_range (latest - n_blocks + 1) latest in
  length blocks = Z.to_nat n_blocks /\
  (forall b, In b blocks <-> (latest - n_blocks < b <= latest)%Z).
Proof.
  cbv zeta. unfold Blockchain.block_range.
  replace (latest + 1 - (latest - n_blocks + 1))%Z with n_blocks by lia.
  split; [now rewrite length_map, length_seq|].
  intro b. rewrite in_map_iff. split.
  - intros (i & <- & I). apply in_seq in I. lia.
  - intro H. exists (Z.to_nat (b - (latest - n_blocks + 1))).
    split; [lia|]. apply in_seq. lia.
Qed.

(** X20: [ingest_latest_blocks] fetches the [n_blocks] blocks up to the
    latest one, in ascending order; [transactions_fetched] is the number of
    transactions fetched; the rows stored before stay as they are and
    [new_transactions_stored] is the number of rows appended, which is at
    most the number fetched; the other tables are untouched and distinct
    hashes stay distinct. *)
Theorem ingest_latest_blocks_counts (db : Session) (latest n_blocks : Z) :
  let db' := fst (ingest_latest_blocks db latest n_blocks) in
  let result := snd (ingest_latest_blocks db latest n_blocks) in
  let blocks := Blockchain.block_range (latest - n_blocks + 1) latest in
  length blocks = Z.to_nat n_blocks /\
  (forall b, In b blocks <-> (latest - n_blocks < b <= latest)%Z) /\
  StronglySorted Z.lt blocks /\
  Blockchain.latest_block result = latest /\
  Blockchain.blocks_processed result = n_blocks /\
  Blockchain.transactions_fetched result
  = Z.of_nat (length (flat_map fetch_block_transactions blocks)) /\
  (exists added,
     transactions db' = transactions db ++ added /\
     Blockchain.new_transactions_stored result = Z.of_nat (length added)) /\
  (0 <= Blockchain.new_transactions_stored result
   <= Blockchain.transactions_fetched result)%Z /\
  wallet_profiles db' = wallet_profiles db /\
  risk_scores db' = risk_scores db /\
  alerts db' = alerts db /\
  (NoDup (map Transaction.tx_hash (transactions db)) ->
   NoDup (map Transaction.tx_hash (transactions db'))).
Proof.
  intros db' result blocks.
  destruct (block_range_spec latest n_blocks) as [L I].
  fold blocks in L, I.
  split; [exact L|]. split; [exact I|]. split.
  { unfold blocks, Blockchain.block_range.
    generalize (Z.to_nat (latest + 1 - (latest - n_blocks + 1))).
    generalize (latest - n_blocks + 1)%Z. intros s n.
    generalize 0%nat. induction n as [|n IH]; intro k; cbn [seq map].
    - constructor.
    - constructor; [apply IH|]. apply Forall_forall. intros x Ix.
      apply in_map_iff in Ix. destruct Ix as (i & <- & Ii).
      apply in_seq in Ii. lia. }
  pose proof (ingest_fold_effect blocks (db, 0%Z, 0%Z)) as H. cbv zeta in H.
  unfold db', result, ingest_latest_blocks, Blockchain.ingest_latest_blocks.
  fold blocks. fold ingest_step.
  destruct (fold_left ingest_step blocks (db, 0%Z, 0%Z)) as [[db1 t] s].
  cbn [fst snd] in *.
  cbn [Blockchain.latest_block Blockchain.blocks_processed
       Blockchain.transactions_fetched Blockchain.new_transactions_stored].
  destruct H as ((added & T & S & La) & F & W & R & A & N).
  split; [reflexivity|]. split; [reflexivity|]. split; [lia|].
  split; [exists added; split; [exact T|lia]|].
  split; [lia|]. auto.
Qed.
End StoreFacts.

Lemma unique_hashes_unique rows pending :
  Samples.unique_hashes rows pending = true ->
  NoDup (map Transaction.tx_hash (rows ++ pending)).
Proof. apply (nodupb_NoDup String.eqb string_eqb_eq). Qed.

Lemma store_transactions_new_rows_witness :
  let tx_list := [Samples.transfer "h2" 100 "B" "A" 10;
                  Samples.transfer "h3" 101 "A" "C" 1] in
  let db' := fst (Blockchain.store_transactions Samples.unique_hashes
                    Samples.scenario_a tx_list) in
  Blockchain.store_transactions Samples.unique_hashes db' tx_list = (db', 0%Z).
Proof.
  cbv zeta.
  apply (store_transactions_new_rows Samples.unique_hashes
           unique_hashes_unique Samples.scenario_a).
Defined.

Lemma ingest_latest_blocks_counts_witness :
  alerts (fst (Blockchain.ingest_latest_blocks Samples.unique_hashes
                 (fun b => [Samples.transfer "h9" b "A" "B" 1])
                 Samples.scenario_a 12 3))
  = alerts Samples.scenario_a.
Proof.
  apply (ingest_latest_blocks_counts Samples.unique_hashes
           unique_hashes_unique (fun b => [Samples.transfer "h9" b "A" "B" 1])
           Samples.scenario_a 12 3).
Defined.

(** ** The risk-score endpoint *)

Lemma get_risk_score_eq g db a :
  Api.get_risk_score g db a
  = if (Z.of_nat (length (filter (Api.involves a) (transactions db))) =? 0)%Z
    then (db, Api.NoTransactions a)
    else (fst (RiskEngine.compute_risk db g a),
          Api.Scored (snd (RiskEngine.compute_risk db g a))
            (Z.of_nat (length (filter (Api.involves a) (transactions db))))).
Proof.
  unfold Api.get_risk_score.
  destruct (_ =? 0)%Z; [reflexivity|].
  now destruct (RiskEngine.compute_risk db g a) as [db1 risk].
Qed.

Lemma involves_spec a tx :
  Api.involves a tx = false <->
  Transaction.from_address tx <> a /\ Transaction.to_address tx <> Some a.
Proof.
  unfold Api.involves. rewrite orb_false_iff, String.eqb_neq.
  destruct (Transaction.to_address tx) as [t|].
  - rewrite String.eqb_neq. split; intros [A B]; (split; [exact A|]);
      congruence.
  - split; intros [A B]; (split; [exact A|]); [discriminate|reflexivity].
Qed.

Lemma filter_nil_iff {A : Type} (f : A -> bool) (l : list A) :
  filter f l = [] <-> forall x, In x l -> f x = false.
Proof.
  split; [|apply filter_none].
  intros E x I. destruct (f x) eqn:F; [|reflexivity].
  assert (X : In x (filter f l)) by (apply filter_In; auto).
  rewrite E in X. destruct X.
Qed.

Lemma severity_of_known c : RiskEngine.severity_of c <> "unknown"%string.
Proof.
  destruct (severity_of_cases c)
    as [[_ ->]|[(_ & _ & ->)|[(_ & _ & ->)|[_ ->]]]]; discriminate.
Qed.

(** X19: the risk-score endpoint answers "unknown", with score 0 and
    without writing, exactly when no stored transaction has the wallet as
    sender or recipient; otherwise it answers with the result of
    [compute_risk], whose risk row is then stored, and with the number of
    those transactions.  It never changes transactions, profiles or alerts,
    and the composite score it reports is at most 100. *)
Theorem risk_score_endpoint (g : GraphAnalysis.DiGraph) (db : Session)
  (wallet_address : string) :
  let db' := fst (Api.get_risk_score g db wallet_address) in
  let response := snd (Api.get_risk_score g db wallet_address) in
  let involved := filter (Api.involves wallet_address) (transactions db) in
  let unseen := forall tx, In tx (transactions db) ->
    Transaction.from_address tx <> wallet_address /\
    Transaction.to_address tx <> Some wallet_address in
  Api.tx_count response = Z.of_nat (length involved) /\
  (Api.severity response = "unknown"%string <-> unseen) /\
  (unseen ->
   db' = db /\ response = Api.NoTransactions wallet_address /\
   Api.composite_score response = 0) /\
  (~ unseen ->
   response
   = Api.Scored (snd (RiskEngine.compute_risk db g wallet_address))
       (Z.of_nat (length involved)) /\
   (1 <= Api.tx_count response)%Z /\
   exists row,
     RiskEngine.find_risk db' wallet_address = Some row /\
     RiskScore.composite_score row = Api.composite_score response) /\
  transactions db' = transactions db /\
  wallet_profiles db' = wallet_profiles db /\
  alerts db' = alerts db /\
  Api.composite_score response <= 100.
Proof.
  intros db' response involved unseen.
  assert (U : involved = [] <-> unseen).
  { unfold involved, unseen. rewrite filter_nil_iff.
    split; intros H tx I; apply involves_spec; auto. }
  unfold db', response. rewrite get_risk_score_eq. fold involved.
  destruct involved as [|tx rest] eqn:E.
  - assert (Un : unseen) by now apply U.
    cbn [length Z.of_nat Z.eqb fst snd Api.tx_count Api.severity
         Api.composite_score].
    split; [reflexivity|]. split; [tauto|]. split; [auto|].
    split; [intro N; contradiction|]. repeat split; lra.
  - assert (Nu : ~ unseen) by (intro H; apply U in H; discriminate).
    assert (P : (Z.of_nat (length (tx :: rest)) =? 0)%Z = false).
    { apply Z.eqb_neq. cbn [length]. lia. }
    rewrite P. cbn [fst snd Api.tx_count Api.severity Api.composite_score].
    split; [reflexivity|]. split.
    { rewrite compute_risk_severity. split; [|tauto].
      intro H. exfalso. exact (severity_of_known _ H). }
    split; [intro H; contradiction|]. split.
    { intros _. split; [reflexivity|]. split; [cbn [length]; lia|].
      rewrite compute_risk_stored. eexists. split; reflexivity. }
    destruct (compute_risk_preserves db g wallet_address) as (T & W & A).
    split; [exact T|]. split; [exact W|]. split; [exact A|].
    rewrite compute_risk_composite. apply composite_of_le_100.
Qed.

(** ** Running the detection again *)

Lemma extract_features_transactions db db' :
  transactions db = transactions db' ->
  MLEngine.extract_features db = MLEngine.extract_features db'.
Proof. intro E. unfold MLEngine.extract_features. now rewrite E. Qed.

Lemma upsert_profile_present rows row :
  find (fun p => String.eqb (WalletProfile.address p)
                   (WalletProfile.address row)) rows = Some row ->
  MLEngine.upsert_profile rows row = rows.
Proof.
  induction rows as [|r rows IH]; cbn [find MLEngine.upsert_profile];
    [discriminate|].
  destruct (String.eqb (WalletProfile.address r) (WalletProfile.address row)).
  - intro E. now injection E as ->.
  - intro E. now rewrite IH.
Qed.

Lemma fold_upsert_find predictions : forall rows pred,
  NoDup (map (fun pred => MLEngine.address (MLEngine.raw pred)) predictions) ->
  In pred predictions ->
  find (fun p => String.eqb (WalletProfile.address p)
                   (MLEngine.address (MLEngine.raw pred)))
    (fold_left (fun rows pred =>
                  MLEngine.upsert_profile rows (MLEngine.profile_row pred))
       predictions rows)
  = Some (MLEngine.profile_row pred).
Proof.
  induction predictions as [|pred0 rest IH]; intros rows pred ND I;
    [destruct I|].
  cbn [fold_left]. cbn [map] in ND. inversion ND as [|x l Nin ND' E]; subst.
  destruct I as [<-|I].
  - rewrite fold_upsert_other by exact Nin.
    apply (upsert_profile_find rows (MLEngine.profile_row pred0)).
  - now apply IH.
Qed.

Lemma fold_upsert_twice predictions rows :
  NoDup (map (fun pred => MLEngine.address (MLEngine.raw pred)) predictions) ->
  let upsert_all := fold_left (fun rows pred =>
                        MLEngine.upsert_profile rows (MLEngine.profile_row pred))
                      predictions in
  upsert_all (upsert_all rows) = upsert_all rows.
Proof.
  intros ND upsert_all.
  assert (F : forall pred, In pred predictions ->
            MLEngine.upsert_profile (upsert_all rows) (MLEngine.profile_row pred)
            = upsert_all rows).
  { intros pred I. apply upsert_profile_present.
    apply (fold_upsert_find predictions rows pred ND I). }
  unfold upsert_all at 1. revert F. generalize (upsert_all rows) as rows'.
  clear ND upsert_all. induction predictions as [|pred rest IH];
    intros rows' F; cbn [fold_left]; [reflexivity|].
  rewrite (F pred (or_introl eq_refl)). apply IH.
  intros p I. apply F. now right.
Qed.

Section Rerun.
Variable Model : Type.
Variable fit : list (list Q) -> Z -> Model.
Variable forest_predict : Model -> list (list Q) -> list Z.
Variable decision_function : Model -> list (list Q) -> list Q.
Variable kmeans_predict : Model -> list (list Q) -> list Z.
Variable N_CLUSTERS : Z.
Variable simple_cycles : GraphAnalysis.DiGraph -> list (list string).
Variable betweenness_centrality : GraphAnalysis.DiGraph -> Z -> string -> Q.

Let train := MLEngine.train Model fit N_CLUSTERS.
Let predict :=
  MLEngine.predict Model fit forest_predict decision_function kmeans_predict
    N_CLUSTERS.
Let run_full_detection :=
  RiskEngine.run_full_detection Model fit forest_predict decision_function
    kmeans_predict N_CLUSTERS simple_cycles betweenness_centrality.

Lemma train_transactions s db db' :
  transactions db = transactions db' -> train s db = train s db'.
Proof.
  intro E. unfold train, MLEngine.train.
  now rewrite (extract_features_transactions db db' E).
Qed.

Lemma predict_transactions s db db' :
  transactions db = transactions db' -> predict s db = predict s db'.
Proof.
  intro E. unfold predict, MLEngine.predict.
  rewrite (extract_features_transactions db db' E).
  fold train. now rewrite (train_transactions s db db' E).
Qed.

Lemma predict_after_predict s db :
  let ml2 := fst (predict (fst (train s db)) db) in
  fst (train ml2 db) = ml2 /\
  predict ml2 db = (ml2, snd (predict (fst (train s db)) db)).
Proof.
  cbv zeta. unfold predict, train, MLEngine.predict, MLEngine.train.
  destruct (Z.of_nat (length (MLEngine.addresses (MLEngine.extract_features db)))
            <? 5)%Z eqn:F; cbn [fst snd MLEngine.is_trained]; rewrite ?F;
    cbn [fst snd MLEngine.is_trained]; rewrite ?F; split; reflexivity.
Qed.

Lemma predict_distinct s db :
  NoDup (map (fun pred => MLEngine.address (MLEngine.raw pred))
           (snd (predict s db))).
Proof.
  unfold predict, MLEngine.predict.
  destruct (_ <? 5)%Z; [constructor|].
  destruct (if MLEngine.is_trained Model s then s else _) as [m|];
    [|constructor].
  cbn [snd]. rewrite <- (map_map MLEngine.raw MLEngine.address).
  rewrite predict_with_raw. apply extract_features_addresses.
Qed.

Lemma run_full_detection_state (sv : RiskEngine.Services Model) (db : Session) :
  let ml := fst (train (RiskEngine.ml_engine sv) db) in
  RiskEngine.ml_engine (fst (fst (run_full_detection sv db)))
  = fst (predict ml db) /\
  wallet_profiles (snd (fst (run_full_detection sv db)))
  = wallet_profiles (MLEngine.update_wallet_profiles db (snd (predict ml db))).
Proof.
  cbv zeta.
  unfold run_full_detection, RiskEngine.run_full_detection, train, predict.
  destruct (MLEngine.train Model fit N_CLUSTERS (RiskEngine.ml_engine sv) db)
    as [ml1 train_result].
  cbn [fst].
  destruct (MLEngine.predict Model fit forest_predict decision_function
              kmeans_predict N_CLUSTERS ml1 db) as [ml2 predictions].
  cbn [fst snd].
  set (db1 := MLEngine.update_wallet_profiles db predictions).
  pose proof (fold_score_profile (GraphAnalysis.build_graph db1)
                (wallet_profiles db1) db1 0%Z) as F.
  destruct (fold_left (RiskEngine.score_profile (GraphAnalysis.build_graph db1))
              (wallet_profiles db1) (db1, 0%Z)) as [db' n].
  destruct F as (_ & Fp & _).
  cbn [fst snd RiskEngine.ml_engine]. split; [reflexivity|exact Fp].
Qed.

(** X21: alerts are not deduplicated.  Running [run_full_detection] a
    second time, on the services and the session the first run left, keeps
    the profiles as they are and appends the alerts of the first run once
    more, reporting the same [alerts_generated]. *)
Theorem detection_rerun_repeats_alerts (sv : RiskEngine.Services Model)
  (db : Session) :
  let first := run_full_detection sv db in
  let again := run_full_detection (fst (fst first)) (snd (fst first)) in
  exists new,
    alerts (snd (fst first)) = alerts db ++ new /\
    alerts (snd (fst again)) = alerts db ++ new ++ new /\
    wallet_profiles (snd (fst again)) = wallet_profiles (snd (fst first)) /\
    transactions (snd (fst again)) = transactions db /\
    RiskEngine.ml_engine (fst (fst again))
    = RiskEngine.ml_engine (fst (fst first)) /\
    RiskEngine.alerts_generated (snd again)
    = RiskEngine.alerts_generated (snd first) /\
    RiskEngine.alerts_generated (snd first) = Z.of_nat (length new).
Proof.
  intros first again.
  destruct (run_full_detection_effect Model fit forest_predict
              decision_function kmeans_predict N_CLUSTERS simple_cycles
              betweenness_centrality sv db) as (G1 & T1 & A1 & N1).
  destruct (run_full_detection_state sv db) as (M1 & W1).
  fold run_full_detection in G1, T1, A1, N1. fold first in G1, T1, A1, N1, M1, W1.
  set (sv1 := fst (fst first)) in *. set (db1 := snd (fst first)) in *.
  destruct (run_full_detection_effect Model fit forest_predict
              decision_function kmeans_predict N_CLUSTERS simple_cycles
              betweenness_centrality sv1 db1) as (G2 & T2 & A2 & N2).
  destruct (run_full_detection_state sv1 db1) as (M2 & W2).
  fold run_full_detection in G2, T2, A2, N2. fold again in G2, T2, A2, N2, M2, W2.
  set (sv2 := fst (fst again)) in *. set (db2 := snd (fst again)) in *.
  set (ml := fst (train (RiskEngine.ml_engine sv) db)) in *.
  destruct (predict_after_predict (RiskEngine.ml_engine sv) db) as (S1 & S2).
  fold ml in S1, S2. rewrite <- M1 in S1, S2.
  rewrite (train_transactions _ db1 db T1), S1 in M2, W2.
  rewrite (predict_transactions _ db1 db T1), S2 in M2, W2.
  cbn [fst snd] in M2, W2.
  assert (W : wallet_profiles db2 = wallet_profiles db1).
  { rewrite W2. unfold MLEngine.update_wallet_profiles.
    cbn [wallet_profiles]. rewrite W1.
    unfold MLEngine.update_wallet_profiles. cbn [wallet_profiles].
    apply fold_upsert_twice. apply predict_distinct. }
  assert (G : RiskEngine.graph sv2 = RiskEngine.graph sv1).
  { rewrite G2, G1. now apply build_graph_transactions. }
  assert (E : flat_map (alert_of db2 (RiskEngine.graph sv2)) (wallet_profiles db2)
              = flat_map (alert_of db1 (RiskEngine.graph sv1))
                  (wallet_profiles db1)).
  { rewrite W, G. apply flat_map_ext. intro p.
    apply alert_of_inputs; [exact T2|exact W]. }
  exists (flat_map (alert_of db1 (RiskEngine.graph sv1)) (wallet_profiles db1)).
  split; [exact A1|]. split; [rewrite A2, E, A1; now rewrite app_assoc|].
  split; [exact W|]. split; [congruence|]. split; [exact M2|].
  split; [rewrite N2, E; now rewrite N1|exact N1].
Qed.
End Rerun.

(** ** The most recent transactions *)

Lemma sorted_firstn_skipn {A : Type} (R : A -> A -> Prop) (l : list A) :
  StronglySorted R l ->
  forall k x y, In x (firstn k l) -> In y (skipn k l) -> R x y.
Proof.
  induction 1 as [|a l S IH F]; intros k x y Ix Iy.
  - rewrite firstn_nil in Ix. destruct Ix.
  - destruct k as [|k]; [destruct Ix|].
    cbn [firstn skipn] in Ix, Iy. destruct Ix as [<-|Ix].
    + rewrite Forall_forall in F. apply F.
      rewrite <- (firstn_skipn k l). apply in_or_app. now right.
    + now apply (IH k).
Qed.

Lemma latest_first_sorted rows :
  StronglySorted
    (fun a b => (Transaction.block_number b <= Transaction.block_number a)%Z)
    (Api.latest_first rows).
Proof.
  unfold Api.latest_first. apply sort_sorted.
  - intros x y H. apply Z.ltb_lt in H. lia.
  - intros x y H. apply Z.ltb_ge in H. exact H.
  - intros x y z H1 H2. lia.
Qed.

(** X22: the live-transactions endpoint returns min(limit, rows) stored
    transactions, sorted by descending block number; together with the
    rows it leaves out they are the rows of the table, and no row left out
    is of a later block than a row returned. *)
Theorem live_transactions_are_latest (db : Session) (limit : nat) :
  let count := fst (Api.get_live_transactions db limit) in
  let txns := snd (Api.get_live_transactions db limit) in
  count = Z.of_nat (Nat.min limit (length (transactions db))) /\
  count = Z.of_nat (length txns) /\
  StronglySorted
    (fun a b => (Transaction.block_number b <= Transaction.block_number a)%Z)
    txns /\
  exists left_out,
    Permutation (txns ++ left_out) (transactions db) /\
    forall tx other, In tx txns -> In other left_out ->
      (Transaction.block_number other <= Transaction.block_number tx)%Z.
Proof.
  cbv zeta. unfold Api.get_live_transactions. cbn [fst snd].
  set (sorted := Api.latest_first (transactions db)).
  assert (P : Permutation sorted (transactions db)).
  { unfold sorted, Api.latest_first.
    eapply Permutation_trans; [apply sort_perm|].
    apply Permutation_sym, Permutation_rev. }
  pose proof (latest_first_sorted (transactions db)) as S. fold sorted in S.
  split; [|split; [reflexivity|split]].
  - rewrite length_firstn, (Permutation_length P). reflexivity.
  - clear P. revert limit. induction S as [|a l S IH F]; intro k.
    + rewrite firstn_nil. constructor.
    + destruct k as [|k]; cbn [firstn]; [constructor|].
      constructor; [apply IH|].
      rewrite Forall_forall in *. intros x Ix. apply F.
      now apply In_firstn_In in Ix.
  - exists (skipn limit sorted). split.
    + now rewrite firstn_skipn.
    + intros tx other It Io.
      apply (sorted_firstn_skipn _ _ S limit tx other It Io).
Qed.

(** ** The cap of the composite score *)



